(** * CryptoGuard: the transaction-graph analyzer

    A shallow embedding of [backend/utils/crypto_graph_analyzer.py]
    (class [CryptoGraphAnalyzer]) and the properties of it that the
    specification states.

    Modelling conventions.
    - Python floats are exact rationals ([Q]); every constant of the source
      ([0.35], [0.95], ...) is the same decimal here.  Equalities between
      computed amounts are stated with [==] ([Qeq]).
    - A timestamp is a number of seconds ([Z]); [(b - a).total_seconds()] is
      [b - a], and [ts.hour] is [(ts / 3600) mod 24].
    - A wallet address is a [string].
    - [nx.DiGraph] keeps its nodes and its adjacency dictionaries in insertion
      order and the analyzer never removes anything, so the graph is the list
      of its nodes and the list of its edges, both in insertion order; the
      successors (predecessors) of a node are the edges leaving (entering)
      it, in that order, exactly as [_succ] and [_pred] hold them.
    - A Python exception is a value [Raise e] of the result type [Res];
      [try ... except:] is a match on it.
    - The [while queue:] loop of [detect_peeling_chain] runs on fuel; the
      fuel given is shown to be enough.
    - [wallet_metadata] is set to an empty dictionary by [__init__] and
      never used again; it is left out. *)

From Stdlib Require Import QArith Qminmax Qabs ZArith Lia.
From stdpp Require Import gmap strings list sorting.

Local Open Scope Q_scope.
Local Open Scope string_scope.
Local Open Scope list_scope.

(** ** Exceptions and the result monad *)

Inductive PyExn : Set :=
  | NetworkXError
  | NodeNotFound
  | NetworkXNoPath
  | NetworkXPointlessConcept
  | PowerIterationFailedConvergence
  | KeyError.

Inductive Res (A : Type) : Type :=
  | Ok (a : A)
  | Raise (e : PyExn).
Arguments Ok {A} a.
Arguments Raise {A} e.

#[global] Instance Res_ret : MRet Res := fun _ a => Ok a.
#[global] Instance Res_bind : MBind Res := fun _ _ f m =>
  match m with
  | Ok a => f a
  | Raise e => Raise e
  end.
#[global] Instance Res_fmap : FMap Res := fun _ _ f m =>
  match m with
  | Ok a => Ok (f a)
  | Raise e => Raise e
  end.

(** The [try: x = e  except: x = d] idiom. *)
Definition res_default {A} (d : A) (m : Res A) : A :=
  match m with
  | Ok a => a
  | Raise _ => d
  end.

Definition is_raise {A} (m : Res A) : bool :=
  match m with
  | Ok _ => false
  | Raise _ => true
  end.

(** ** Rational helpers *)

#[global] Instance Qlt_decision (x y : Q) : Decision (x < y) :=
  match Qlt_le_dec x y with
  | left H => left H
  | right H => right (Qle_not_lt _ _ H)
  end.

Definition Qltb (x y : Q) : bool := negb (Qle_bool y x).
Definition Qsum (l : list Q) : Q := foldr Qplus 0 l.
Definition Qnat (n : nat) : Q := inject_Z (Z.of_nat n).

(** ** Data model *)

(** One record of the input batch of [load_transactions]; [token_type] is
    optional ([txn.get("token_type", "UNKNOWN")]). *)
Record Transaction : Type := {
  source_wallet : string;
  dest_wallet : string;
  amount : Q;
  timestamp : Z;
  token_type : option string
}.

(** The dictionary stored in an edge's [transactions] list. *)
Record TxnRecord : Type := {
  rec_amount : Q;
  rec_timestamp : Z;
  rec_token_type : string
}.

(** The attribute dictionary of an aggregate edge. *)
Record EdgeData : Type := {
  transactions : list TxnRecord;
  total_amount : Q;
  transaction_count : nat
}.

Definition Edge : Type := string * string * EdgeData.
Definition edge_src (e : Edge) : string := e.1.1.
Definition edge_dst (e : Edge) : string := e.1.2.
Definition edge_data (e : Edge) : EdgeData := e.2.

Record DiGraph : Type := {
  nodes : list string;
  edges : list Edge
}.

Record CryptoGraphAnalyzer : Type := {
  graph : DiGraph;
  illicit_wallets : gset string
}.

(** [__init__] *)
Definition new_analyzer : CryptoGraphAnalyzer :=
  {| graph := {| nodes := []; edges := [] |}; illicit_wallets := ∅ |}.

(** ** networkx

    The functions and [DiGraph] methods of networkx that the analyzer calls,
    under the name the source gives the library. *)

Module nx.

(** *** The [DiGraph] methods that build and look up *)

Definition has_node (G : DiGraph) (n : string) : bool :=
  bool_decide (n ∈ nodes G).

Definition is_edge (u v : string) (e : Edge) : bool :=
  bool_decide (edge_src e = u) && bool_decide (edge_dst e = v).

Definition find_edge (G : DiGraph) (u v : string) : option EdgeData :=
  edge_data <$> find (is_edge u v) (edges G).

Definition has_edge (G : DiGraph) (u v : string) : bool :=
  match find_edge G u v with
  | Some _ => true
  | None => false
  end.

(** [G[u][v]]: a [KeyError] when the edge is not there. *)
Definition get_edge (G : DiGraph) (u v : string) : Res EdgeData :=
  match find_edge G u v with
  | Some d => Ok d
  | None => Raise KeyError
  end.

Definition add_node (G : DiGraph) (n : string) : DiGraph :=
  if has_node G n then G
  else {| nodes := nodes G ++ [n]; edges := edges G |}.

Definition alter_edge (f : EdgeData → EdgeData) (u v : string)
    (es : list Edge) : list Edge :=
  (λ e, if is_edge u v e then (edge_src e, edge_dst e, f (edge_data e)) else e)
    <$> es.

(** [G.add_edge(u, v, **attr)]: both end points become nodes ([u] first);
    an edge already present has its attributes overwritten. *)
Definition add_edge (G : DiGraph) (u v : string) (d : EdgeData) : DiGraph :=
  let G' := add_node (add_node G u) v in
  if has_edge G u v
  then {| nodes := nodes G'; edges := alter_edge (λ _, d) u v (edges G') |}
  else {| nodes := nodes G'; edges := edges G' ++ [(u, v, d)] |}.

(** *** Reading the graph *)

(** A Python string iterates as its one-character strings (the addresses
    are taken to be ASCII). *)
Fixpoint chars (s : string) : list string :=
  match s with
  | EmptyString => []
  | String c s' => String c EmptyString :: chars s'
  end.

(** [dict.fromkeys(l)]: the keys of [l] in order of first occurrence. *)
Fixpoint dict_fromkeys_from (seen l : list string) : list string :=
  match l with
  | [] => []
  | x :: l' =>
      if bool_decide (x ∈ seen) then dict_fromkeys_from seen l'
      else x :: dict_fromkeys_from (x :: seen) l'
  end.
Definition dict_fromkeys (l : list string) : list string :=
  dict_fromkeys_from [] l.

(** [G.nbunch_iter(nbunch)] for a string: a node stands for itself; any
    other string is taken as a sequence of nodes, that is, its characters,
    of which those that are nodes are kept. *)
Definition nbunch_iter (G : DiGraph) (nbunch : string) : list string :=
  if has_node G nbunch then [nbunch]
  else filter (λ n, n ∈ nodes G) (chars nbunch).

Definition succ_edges (G : DiGraph) (n : string) : list Edge :=
  filter (λ e, edge_src e = n) (edges G).
Definition pred_edges (G : DiGraph) (n : string) : list Edge :=
  filter (λ e, edge_dst e = n) (edges G).

(** [list(G.out_edges(w, data=True))] and [list(G.in_edges(w, data=True))] *)
Definition out_edges (G : DiGraph) (w : string) : list Edge :=
  dict_fromkeys (nbunch_iter G w) ≫= succ_edges G.
Definition in_edges (G : DiGraph) (w : string) : list Edge :=
  dict_fromkeys (nbunch_iter G w) ≫= pred_edges G.

(** [G.successors(n)] (also [G.neighbors(n)]) and [G.predecessors(n)] raise
    [NetworkXError] when [n] is not a node. *)
Definition successors (G : DiGraph) (n : string) : Res (list string) :=
  if has_node G n then Ok (edge_dst <$> succ_edges G n)
  else Raise NetworkXError.
Definition predecessors (G : DiGraph) (n : string) : Res (list string) :=
  if has_node G n then Ok (edge_src <$> pred_edges G n)
  else Raise NetworkXError.
Definition neighbors := successors.

(** *** Shortest paths *)

(** Breadth-first levels from the frontier: the nodes first reached at
    distance [d], [d+1], ...; [adj] gives the neighbours of a node. There
    are at most as many levels as nodes. *)
Fixpoint bfs_levels (fuel : nat) (adj : string → list string)
    (seen frontier : list string) (d : nat) : list (string * nat) :=
  match fuel with
  | O => []
  | S fuel' =>
      match frontier with
      | [] => []
      | _ =>
          let next :=
            dict_fromkeys (filter (λ n, n ∉ seen) (frontier ≫= adj)) in
          ((λ n, (n, d)) <$> frontier)
            ++ bfs_levels fuel' adj (seen ++ next) next (S d)
      end
  end.

(** [nx.single_source_shortest_path_length(G, source)] as a list of
    (node, distance). *)
Definition single_source_shortest_path_length (G : DiGraph)
    (adj : string → list string) (source : string) : list (string * nat) :=
  bfs_levels (S (length (nodes G))) adj [source] [source] 0.

Definition succs (G : DiGraph) (n : string) : list string :=
  edge_dst <$> succ_edges G n.
Definition preds (G : DiGraph) (n : string) : list string :=
  edge_src <$> pred_edges G n.

Definition dict_get {A} (d : list (string * A)) (k : string) : option A :=
  snd <$> find (λ kv, bool_decide (kv.1 = k)) d.

(** [nx.shortest_path_length(G, source, target)] *)
Definition shortest_path_length (G : DiGraph) (source target : string)
    : Res nat :=
  if negb (has_node G source) || negb (has_node G target)
  then Raise NodeNotFound
  else match dict_get
               (single_source_shortest_path_length G (succs G) source) target
       with
       | Some d => Ok d
       | None => Raise NetworkXNoPath
       end.

(** [nx.has_path(G, source, target)]: only [NetworkXNoPath] is caught. *)
Definition has_path (G : DiGraph) (source target : string) : Res bool :=
  match shortest_path_length G source target with
  | Ok _ => Ok true
  | Raise NetworkXNoPath => Ok false
  | Raise e => Raise e
  end.

(** [nx.is_strongly_connected(G)] *)
Definition is_strongly_connected (G : DiGraph) : Res bool :=
  match nodes G with
  | [] => Raise NetworkXPointlessConcept
  | _ =>
      Ok (forallb
            (λ u, forallb
               (λ v, bool_decide
                  (is_Some (dict_get
                     (single_source_shortest_path_length G (succs G) u) v)))
               (nodes G))
            (nodes G))
  end.

(** *** Centrality measures *)

(** [nx.degree_centrality(G)] *)
Definition degree_centrality (G : DiGraph) : list (string * Q) :=
  if bool_decide (length (nodes G) ≤ 1)%nat
  then (λ n, (n, 1)) <$> nodes G
  else
    let s := 1 / (Qnat (length (nodes G)) - 1) in
    (λ n, (n, Qnat (length (succ_edges G n) + length (pred_edges G n)) * s))
      <$> nodes G.

(** [nx.closeness_centrality(G)] (incoming distance, Wasserman-Faust
    scaling). *)
Definition closeness_centrality (G : DiGraph) : list (string * Q) :=
  (λ n,
     let sp := single_source_shortest_path_length G (preds G) n in
     let totsp := Qnat (sum_list (snd <$> sp)) in
     let len_G := length (nodes G) in
     (n, if Qltb 0 totsp && bool_decide (1 < len_G)%nat
         then ((Qnat (length sp) - 1) / totsp)
              * ((Qnat (length sp) - 1) / (Qnat len_G - 1))
         else 0))
    <$> nodes G.

(** Betweenness centrality and PageRank are numerical procedures of
    networkx; the analyzer only reads one entry of the dictionary they
    return, or catches what they raise. Both dictionaries are keyed by
    nodes of the graph. *)
Class NxNumerics : Type := {
  betweenness_centrality : DiGraph → Res (list (string * Q));
  nx_pagerank : DiGraph → Res (list (string * Q));
  betweenness_centrality_keys G d k :
    betweenness_centrality G = Ok d → k ∈ d.*1 → k ∈ nodes G;
  nx_pagerank_keys G d k :
    nx_pagerank G = Ok d → k ∈ d.*1 → k ∈ nodes G
}.

(** *** Simple paths *)

(** The simple paths from [cur] to [target] with at most [depth] more
    edges, in networkx's depth-first order; [visited] is the path so far. *)
Fixpoint simple_paths_from (G : DiGraph) (target : string) (depth : nat)
    (visited : list string) (cur : string) : list (list string) :=
  match depth with
  | O => []
  | S depth' =>
      succs G cur ≫= (λ child,
        if bool_decide (child ∈ visited) then []
        else if bool_decide (child = target) then [visited ++ [child]]
        else simple_paths_from G target depth' (visited ++ [child]) child)
  end.

(** [list(nx.all_simple_paths(G, source, target, cutoff=cutoff))] for a
    target other than the source. *)
Definition all_simple_paths (G : DiGraph) (source target : string)
    (cutoff : nat) : Res (list (list string)) :=
  if negb (has_node G source) || negb (has_node G target)
  then Raise NodeNotFound
  else Ok (simple_paths_from G target cutoff [source] source).

End nx.
Import nx.

(** ** [load_transactions] *)

Definition txn_record (txn : Transaction) : TxnRecord :=
  {| rec_amount := amount txn;
     rec_timestamp := timestamp txn;
     rec_token_type := default "UNKNOWN" (token_type txn) |}.

Definition load_transaction (G : DiGraph) (txn : Transaction) : DiGraph :=
  let source := source_wallet txn in
  let dest := dest_wallet txn in
  if has_edge G source dest then
    {| nodes := nodes G;
       edges := alter_edge
         (λ d, {| transactions := transactions d ++ [txn_record txn];
                  total_amount := total_amount d + amount txn;
                  transaction_count := transaction_count d + 1 |})
         source dest (edges G) |}
  else
    add_edge G source dest
      {| transactions := [txn_record txn];
         total_amount := amount txn;
         transaction_count := 1 |}.

Definition load_transactions (self : CryptoGraphAnalyzer)
    (txns : list Transaction) : CryptoGraphAnalyzer :=
  {| graph := foldl load_transaction (graph self) txns;
     illicit_wallets := illicit_wallets self |}.

(** ** [mark_illicit_wallets] *)

Definition mark_illicit_wallets (self : CryptoGraphAnalyzer)
    (illicit_wallet_list : list string) : CryptoGraphAnalyzer :=
  {| graph := graph self;
     illicit_wallets := list_to_set illicit_wallet_list |}.

(** ** Sorting *)

(** [sorted(l, key=key, reverse=True)]: descending and stable. *)
Fixpoint insert_desc {A} (key : A → Q) (x : A) (l : list A) : list A :=
  match l with
  | [] => [x]
  | y :: l' =>
      if Qltb (key x) (key y) then y :: insert_desc key x l'
      else x :: l
  end.
Definition sorted_desc {A} (key : A → Q) (l : list A) : list A :=
  foldr (insert_desc key) [] l.

(** ** Small list helpers *)

Definition Zmax_list (l : list Z) : Z :=
  match l with
  | [] => 0%Z
  | x :: l' => foldl Z.max x l'
  end.
Definition Zmin_list (l : list Z) : Z :=
  match l with
  | [] => 0%Z
  | x :: l' => foldl Z.min x l'
  end.

(** Hours between two instants: [(b - a).total_seconds() / 3600]. *)
Definition hours_between (a b : Z) : Q := inject_Z (b - a) / 3600.

Definition edge_timestamps (d : EdgeData) : list Z :=
  rec_timestamp <$> transactions d.

(** ** [_analyze_pattern] *)

Record PatternInfo : Type := {
  pi_suspicion_score : Q;
  pi_total_amount : Q;
  pi_transaction_count : nat;
  pi_path_length : nat;
  pi_time_span_hours : Q
}.

(** The loop over the consecutive pairs of [path]: the running
    [total_amount], [transaction_count] and [time_span]. *)
Fixpoint analyze_pattern_loop (G : DiGraph) (path : list string)
    (acc : Q * nat * option (Z * Z)) : Res (Q * nat * option (Z * Z)) :=
  match path with
  | u :: ((v :: _) as rest) =>
      edge_data ← get_edge G u v;
      let '(total, count, time_span) := acc in
      let timestamps := edge_timestamps edge_data in
      let time_span' :=
        match timestamps with
        | [] => time_span
        | _ =>
            match time_span with
            | None => Some (Zmin_list timestamps, Zmax_list timestamps)
            | Some (lo, hi) =>
                Some (Z.min lo (Zmin_list timestamps),
                      Z.max hi (Zmax_list timestamps))
            end
        end in
      analyze_pattern_loop G rest
        (total + total_amount edge_data,
         (count + transaction_count edge_data)%nat, time_span')
  | _ => Ok acc
  end.

Definition _analyze_pattern (self : CryptoGraphAnalyzer) (path : list string)
    : Res PatternInfo :=
  '(total_amount, transaction_count, time_span) ←
     analyze_pattern_loop (graph self) path (0, 0%nat, None);
  let suspicion := 0 in
  let suspicion :=
    if bool_decide (5 ≤ length path)%nat then suspicion + 0.3
    else if bool_decide (3 ≤ length path)%nat then suspicion + 0.2
    else suspicion in
  let suspicion :=
    if Qltb 10000 total_amount && bool_decide (3 ≤ length path)%nat
    then suspicion + 0.3 else suspicion in
  let suspicion :=
    if bool_decide (20 < transaction_count)%nat
    then suspicion + 0.2 else suspicion in
  let suspicion :=
    match time_span with
    | Some (lo, hi) =>
        if Qltb (hours_between lo hi) 24 then suspicion + 0.2 else suspicion
    | None => suspicion
    end in
  mret {| pi_suspicion_score := Qmin suspicion 1;
          pi_total_amount := total_amount;
          pi_transaction_count := transaction_count;
          pi_path_length := length path;
          pi_time_span_hours :=
            match time_span with
            | Some (lo, hi) => hours_between lo hi
            | None => 0
            end |}.

(** ** [detect_fan_out_fan_in] *)

Record DirectMetrics : Type := {
  dm_total_amount : Q;
  dm_transaction_count : nat;
  dm_path_length : nat;
  dm_fan_out_count : nat;
  dm_time_span_hours : Q
}.

(** The two shapes of record the detector emits, told apart by their
    ["pattern_type"]. The intermediaries of a multi-hop record are
    [list(set(...))], a list in no particular order: a set here. *)
Inductive SmurfingPattern : Type :=
  | direct_smurfing_from_illicit
      (source intermediary : string) (destinations path : list string)
      (intermediaries : list string) (suspicion_score : Q)
      (metrics : DirectMetrics)
  | multi_hop_smurfing
      (source destination : string) (path : list string)
      (intermediaries : gset string) (suspicion_score : Q)
      (metrics : PatternInfo).

Definition sp_suspicion_score (p : SmurfingPattern) : Q :=
  match p with
  | direct_smurfing_from_illicit _ _ _ _ _ s _ => s
  | multi_hop_smurfing _ _ _ _ s _ => s
  end.

Definition is_direct (p : SmurfingPattern) : bool :=
  match p with
  | direct_smurfing_from_illicit _ _ _ _ _ _ _ => true
  | multi_hop_smurfing _ _ _ _ _ _ => false
  end.

(** [[src for src, _, _ in in_edges if src in self.illicit_wallets]] *)
Definition illicit_sources_of (self : CryptoGraphAnalyzer)
    (in_edges : list Edge) : list string :=
  filter (λ src, src ∈ illicit_wallets self) (edge_src <$> in_edges).

(** [sum(self.graph[src][wallet]["total_amount"] for src in illicit_sources)] *)
Definition total_from (self : CryptoGraphAnalyzer) (wallet : string)
    (illicit_sources : list string) : Res Q :=
  Qsum <$> mapM (λ src, total_amount <$> get_edge (graph self) src wallet)
                illicit_sources.

(** The first stage: the direct fan-out from an illicit source. *)
Definition direct_smurfing (self : CryptoGraphAnalyzer) (wallet : string)
    : Res (list SmurfingPattern) :=
  let in_edges := in_edges (graph self) wallet in
  let out_edges := out_edges (graph self) wallet in
  if bool_decide (0 < length in_edges)%nat
     && bool_decide (5 ≤ length out_edges)%nat then
    match illicit_sources_of self in_edges with
    | [] => Ok []
    | (first :: _) as illicit_sources =>
        total_received ← total_from self wallet illicit_sources;
        let destinations := edge_dst <$> out_edges in
        from_illicit ←
          mapM (λ src, edge_timestamps <$> get_edge (graph self) src wallet)
               illicit_sources;
        let all_timestamps :=
          concat from_illicit
            ++ (out_edges ≫= (λ e, edge_timestamps (edge_data e))) in
        let time_span :=
          match all_timestamps with
          | [] => 0
          | _ => hours_between (Zmin_list all_timestamps)
                               (Zmax_list all_timestamps)
          end in
        let suspicion :=
          if bool_decide (10 < length out_edges)%nat then 0.95 else 0.9 in
        mret [direct_smurfing_from_illicit first wallet destinations
                ([first; wallet] ++ destinations) [wallet] suspicion
                {| dm_total_amount := total_received;
                   dm_transaction_count :=
                     sum_list ((λ e, transaction_count (edge_data e))
                                 <$> out_edges);
                   dm_path_length := 2;
                   dm_fan_out_count := length out_edges;
                   dm_time_span_hours := time_span |}]
    end
  else Ok [].

(** The body of the loop over the paths to one target. *)
Definition multi_hop_of_path (self : CryptoGraphAnalyzer)
    (wallet target : string) (min_intermediaries : nat) (path : list string)
    : Res (list SmurfingPattern) :=
  if bool_decide (length path < 3)%nat then Ok []
  else
    let intermediaries : gset string :=
      list_to_set (take (length path - 2) (drop 1 path)) in
    if bool_decide (min_intermediaries ≤ size intermediaries)%nat then
      pattern_info ← _analyze_pattern self path;
      if Qltb 0.5 (pi_suspicion_score pattern_info)
      then mret [multi_hop_smurfing wallet target path intermediaries
                   (pi_suspicion_score pattern_info) pattern_info]
      else mret []
    else Ok [].

(** The second stage: the loop over the targets. *)
Definition multi_hop_smurfing_patterns (self : CryptoGraphAnalyzer)
    (wallet : string) (max_depth min_intermediaries : nat)
    : Res (list SmurfingPattern) :=
  @concat _ <$> mapM (λ target,
    if bool_decide (target = wallet) then Ok []
    else
      match all_simple_paths (graph self) wallet target max_depth with
      | Raise _ => Ok []
      | Ok paths =>
          @concat _ <$> mapM (multi_hop_of_path self wallet target
                             min_intermediaries) paths
      end) (nodes (graph self)).

(** [max_depth] and [min_intermediaries] are natural numbers: a negative
    [max_depth] finds no more paths than [0], and a negative
    [min_intermediaries] filters no more than [0]. *)
Definition detect_fan_out_fan_in (self : CryptoGraphAnalyzer)
    (wallet : string) (max_depth min_intermediaries : nat)
    : Res (list SmurfingPattern) :=
  direct ← direct_smurfing self wallet;
  multi ← multi_hop_smurfing_patterns self wallet max_depth min_intermediaries;
  mret (sorted_desc sp_suspicion_score (direct ++ multi)).

(** ** [detect_peeling_chain] *)

(** [decreasing_count]: the positions [i >= 1] with
    [amounts[i] < amounts[i-1] * 0.95]. *)
Fixpoint decreasing_count (amounts : list Q) : nat :=
  match amounts with
  | prev :: ((cur :: _) as rest) =>
      ((if Qltb cur (prev * 0.95) then 1 else 0) + decreasing_count rest)%nat
  | _ => 0%nat
  end.

Definition _is_peeling_pattern (amounts : list Q) : bool :=
  if bool_decide (length amounts < 3)%nat then false
  else Qle_bool (Qnat (length amounts) * 0.7) (Qnat (decreasing_count amounts)).

Definition _calculate_peeling_score (amounts : list Q) : Q :=
  match amounts with
  | [] => 0
  | first :: _ =>
      let final := List.last amounts first in
      let score := 0 in
      let score :=
        if bool_decide (10 ≤ length amounts)%nat then score + 0.4
        else if bool_decide (5 ≤ length amounts)%nat then score + 0.2
        else score in
      let peel_percentage :=
        if Qltb 0 first then (first - final) / first else 0 in
      let score :=
        if Qltb 0.1 peel_percentage && Qltb peel_percentage 0.5
        then score + 0.3 else score in
      let score := if Qltb 10000 first then score + 0.3 else score in
      Qmin score 1
  end.

Record PeelingChain : Type := {
  pc_source : string;
  pc_chain : list string;
  pc_amounts : list Q;
  pc_total_peeled : Q;
  pc_suspicion_score : Q
}.

(** An entry of the queue: [(current, path, amounts)]. *)
Definition QueueEntry : Type := string * list string * list Q.

(** The [while queue:] loop. It returns the entries that reached the test
    [len(path) >= min_hops], in the order they were dequeued; [None] when
    the fuel runs out before the queue is empty. *)
Fixpoint peeling_bfs (fuel : nat) (G : DiGraph) (min_hops : nat)
    (visited : gset string) (queue : list QueueEntry)
    : option (Res (list QueueEntry)) :=
  match queue with
  | [] => Some (Ok [])
  | (current, path, amounts) :: queue' =>
      match fuel with
      | O => None
      | S fuel' =>
          if bool_decide (current ∈ visited) && bool_decide (1 < length path)%nat
          then peeling_bfs fuel' G min_hops visited queue'
          else
            let visited' := {[current]} ∪ visited in
            let examined :=
              if bool_decide (min_hops ≤ length path)%nat
              then [(current, path, amounts)] else [] in
            match neighbors G current with
            | Raise e => Some (Raise e)
            | Ok nbrs =>
                match
                  mapM (λ neighbor,
                          edge_data ← get_edge G current neighbor;
                          mret (neighbor, path ++ [neighbor],
                                amounts ++ [total_amount edge_data]))
                       (filter (λ neighbor, neighbor ∉ path) nbrs)
                with
                | Raise e => Some (Raise e)
                | Ok pushed =>
                    match peeling_bfs fuel' G min_hops visited'
                            (queue' ++ pushed) with
                    | Some (Ok rest) => Some (Ok (examined ++ rest))
                    | other => other
                    end
                end
            end
      end
  end.

Definition peeling_chain_of (wallet : string) (entry : QueueEntry)
    : PeelingChain :=
  let '(_, path, amounts) := entry in
  {| pc_source := wallet;
     pc_chain := path;
     pc_amounts := amounts;
     pc_total_peeled :=
       match amounts with
       | [] => 0
       | first :: _ => Qsum amounts - List.last amounts first
       end;
     pc_suspicion_score := _calculate_peeling_score amounts |}.

(** Every pass through the loop either drops an entry or visits a node for
    the first time and pushes one entry per edge leaving it, so twice the
    number of edges plus two bounds the number of passes. *)
Definition peeling_fuel (G : DiGraph) : nat := S (S (2 * length (edges G))).

Definition peeling_candidates (self : CryptoGraphAnalyzer) (wallet : string)
    (min_hops : nat) : option (Res (list QueueEntry)) :=
  peeling_bfs (peeling_fuel (graph self)) (graph self) min_hops ∅
              [(wallet, [wallet], [])].

Definition detect_peeling_chain (self : CryptoGraphAnalyzer) (wallet : string)
    (min_hops : nat) : option (Res (list PeelingChain)) :=
  fmap (M := Res)
    (λ examined,
       sorted_desc pc_suspicion_score
         (peeling_chain_of wallet
            <$> filter (λ e : QueueEntry, _is_peeling_pattern e.2) examined))
    <$> peeling_candidates self wallet min_hops.

(** ** [_distance_to_illicit_wallets] *)

(** [min(min_distance, distance)], with [None] for [float("inf")]. *)
Definition min_distance_with (min_distance : option nat) (distance : nat)
    : option nat :=
  match min_distance with
  | None => Some distance
  | Some m => Some (m `min` distance)%nat
  end.

(** One pass of the loop over the illicit wallets. An exception leaves the
    [try] block at once; what was assigned before it stays assigned. *)
Definition distance_step (G : DiGraph) (wallet : string)
    (min_distance : option nat) (illicit : string) : option nat :=
  let forward :=
    b ← has_path G wallet illicit;
    if b : bool then
      distance ← shortest_path_length G wallet illicit;
      mret (min_distance_with min_distance distance)
    else mret min_distance in
  match forward with
  | Raise _ => min_distance
  | Ok min_distance' =>
      res_default min_distance'
        (b ← has_path G illicit wallet;
         if b : bool then
           distance ← shortest_path_length G illicit wallet;
           mret (min_distance_with min_distance' distance)
         else mret min_distance')
  end.

(** The set is visited in [elements] order; the minimum does not depend
    on it. *)
Definition _distance_to_illicit_wallets (self : CryptoGraphAnalyzer)
    (wallet : string) : Z :=
  if bool_decide (wallet ∈ illicit_wallets self) then 0%Z
  else
    match foldl (distance_step (graph self) wallet) None
                (elements (illicit_wallets self)) with
    | Some d => Z.of_nat d
    | None => (-1)%Z
    end.

(** ** [calculate_wallet_centrality] *)

Record Centrality : Type := {
  degree : Q;
  betweenness : Q;
  pagerank : Q;
  closeness : Q
}.

Definition zero_centrality : Centrality :=
  {| degree := 0; betweenness := 0; pagerank := 0; closeness := 0 |}.

(** [d.get(wallet, 0)] *)
Definition get_or_zero (d : list (string * Q)) (wallet : string) : Q :=
  default 0 (dict_get d wallet).

Definition calculate_wallet_centrality {numerics : NxNumerics}
    (self : CryptoGraphAnalyzer) (wallet : string) : Centrality :=
  let G := graph self in
  res_default zero_centrality
    (let degree := get_or_zero (degree_centrality G) wallet in
     betweenness_dict ← betweenness_centrality G;
     let betweenness := get_or_zero betweenness_dict wallet in
     pagerank_dict ← nx_pagerank G;
     let pagerank := get_or_zero pagerank_dict wallet in
     strongly_connected ← is_strongly_connected G;
     let closeness :=
       if strongly_connected : bool
       then get_or_zero (closeness_centrality G) wallet
       else 0 in
     mret {| degree := degree; betweenness := betweenness;
             pagerank := pagerank; closeness := closeness |}).

(** ** [_analyze_transaction_patterns] *)

Definition edge_totals (es : list Edge) : list Q :=
  (λ e, total_amount (edge_data e)) <$> es.

Definition _analyze_transaction_patterns (self : CryptoGraphAnalyzer)
    (wallet : string) : Q :=
  let G := graph self in
  let score := 0 in
  let out_edges := out_edges G wallet in
  let in_edges := in_edges G wallet in
  let total_received := Qsum (edge_totals in_edges) in
  let total_sent := Qsum (edge_totals out_edges) in
  let score :=
    if bool_decide (0 < length in_edges)%nat
       && bool_decide (5 ≤ length out_edges)%nat then
      match illicit_sources_of self in_edges with
      | _ :: _ => score + 0.8
      | [] =>
          if Qltb (total_sent * 0.8) total_received then
            let avg_out :=
              match out_edges with
              | [] => 0
              | _ => total_sent / Qnat (length out_edges)
              end in
            if Qltb avg_out (total_received / 10) then score + 0.6 else score
          else score
      end
    else score in
  let score :=
    if bool_decide (10 < length out_edges)%nat then score + 0.3
    else if bool_decide (5 < length out_edges)%nat then score + 0.15
    else score in
  let score :=
    if bool_decide (10 < length in_edges)%nat then score + 0.3
    else if bool_decide (5 < length in_edges)%nat then score + 0.15
    else score in
  let score :=
    if existsb (λ e, has_edge G (edge_dst e) wallet) out_edges
    then score + 0.2 else score in
  Qmin score 1.

(** ** [calculate_suspicion_score] *)

(** The first component, [illicit_connection_score]. *)
Definition illicit_connection_score (self : CryptoGraphAnalyzer)
    (wallet : string) : Res Q :=
  let illicit_distance := _distance_to_illicit_wallets self wallet in
  if bool_decide (illicit_distance = 0)%Z then Ok 1.0
  else if bool_decide (illicit_distance = 1)%Z then
    let in_edges := in_edges (graph self) wallet in
    match illicit_sources_of self in_edges with
    | (_ :: _) as illicit_sources =>
        total_from_illicit ← total_from self wallet illicit_sources;
        if Qltb 100 total_from_illicit then mret 0.9 else mret 0.7
    | [] => Ok 0.5
    end
  else if bool_decide (illicit_distance = 2)%Z then Ok 0.3
  else if bool_decide (illicit_distance ≤ 3)%Z then Ok 0.15
  else Ok 0.0.

(** The second component, [centrality_score]. *)
Definition centrality_score (centrality : Centrality) : Q :=
  degree centrality * 0.3 + betweenness centrality * 0.4
  + pagerank centrality * 0.3.

Definition calculate_suspicion_score {numerics : NxNumerics}
    (self : CryptoGraphAnalyzer) (wallet : string) : Res Q :=
  let score := 0.0 in
  illicit_connection_score ← illicit_connection_score self wallet;
  let score := score + illicit_connection_score * 0.5 in
  let centrality := calculate_wallet_centrality self wallet in
  let score := score + centrality_score centrality * 0.2 in
  let pattern_score := _analyze_transaction_patterns self wallet in
  let score := score + pattern_score * 0.3 in
  mret (Qmin score 1.0).

(** ** [calculate_suspicion_breakdown] *)

(** The ["description"] texts, with the values they display. *)
Inductive Description : Type :=
  | WalletSendsTo (fan_out_count : nat)
  | WalletReceivesFrom (fan_in_count : nat)
  | TransactionsWithin (count : nat) (time_span_hours : Q)
  | StructuringPattern
  | NoClearStructuringPattern
  | NoConnectionToIllicit
  | WalletIsKnownIllicit
  | DirectTransferFromIllicit (total_from_illicit : Q)
  | DirectTransferToIllicit
  | TwoHopsFromIllicit
  | ThreeHopsFromIllicit.

Record Breakdown : Type := {
  total_suspicion_score : Q;
  fan_out_score : Q;
  destination_count : nat;
  fan_out_description : Description;
  fan_in_score : Q;
  source_count : nat;
  fan_in_description : Description;
  temporal_burst_score : Q;
  temporal_transaction_count : nat;
  time_span_hours : Q;
  temporal_description : Description;
  path_similarity_score : Q;
  path_similarity_description : Description;
  illicit_proximity_score : Q;
  distance_to_illicit : Z;
  proximity_description : Description
}.

(** [sum(1 for amt in amounts if abs(amt - avg_amount) < avg_amount * 0.2)] *)
Definition similar_count (amounts : list Q) (avg_amount : Q) : nat :=
  length (filter (λ amt, Qltb (Qabs (amt - avg_amount)) (avg_amount * 0.2))
                 amounts).

Definition average (amounts : list Q) : Q :=
  Qsum amounts / Qnat (length amounts).

(** Component 5 of the breakdown: the score and its description. *)
Definition illicit_proximity (self : CryptoGraphAnalyzer) (wallet : string)
    (in_edges : list Edge) : Res (Q * Description) :=
  let illicit_distance := _distance_to_illicit_wallets self wallet in
  if bool_decide (illicit_distance = 0)%Z then Ok (0.50, WalletIsKnownIllicit)
  else if bool_decide (illicit_distance = 1)%Z then
    match illicit_sources_of self in_edges with
    | (_ :: _) as illicit_sources =>
        total_from_illicit ← total_from self wallet illicit_sources;
        mret (if Qltb 100 total_from_illicit then 0.35 else 0.25,
              DirectTransferFromIllicit total_from_illicit)
    | [] => Ok (0.20, DirectTransferToIllicit)
    end
  else if bool_decide (illicit_distance = 2)%Z
  then Ok (0.10, TwoHopsFromIllicit)
  else if bool_decide (illicit_distance = 3)%Z
  then Ok (0.05, ThreeHopsFromIllicit)
  else Ok (0.0, NoConnectionToIllicit).

Definition calculate_suspicion_breakdown (self : CryptoGraphAnalyzer)
    (wallet : string) : Res Breakdown :=
  let G := graph self in
  (* Component 1 *)
  let out_edges := out_edges G wallet in
  let fan_out_count := length out_edges in
  let fan_out_score :=
    if bool_decide (20 ≤ fan_out_count)%nat then 0.35
    else if bool_decide (10 ≤ fan_out_count)%nat then 0.25
    else if bool_decide (5 ≤ fan_out_count)%nat then 0.15
    else 0.0 in
  (* Component 2 *)
  let in_edges := in_edges G wallet in
  let fan_in_count := length in_edges in
  let fan_in_score :=
    if bool_decide (20 ≤ fan_in_count)%nat then 0.28
    else if bool_decide (10 ≤ fan_in_count)%nat then 0.20
    else if bool_decide (5 ≤ fan_in_count)%nat then 0.12
    else 0.0 in
  (* Component 3 *)
  let all_timestamps :=
    (in_edges ++ out_edges) ≫= (λ e, edge_timestamps (edge_data e)) in
  let txn_count := length all_timestamps in
  let time_span_hours :=
    match all_timestamps with
    | [] => 0
    | _ => hours_between (Zmin_list all_timestamps) (Zmax_list all_timestamps)
    end in
  let temporal_burst_score :=
    match all_timestamps with
    | [] => 0.0
    | _ =>
        if Qltb time_span_hours 24 && bool_decide (10 < txn_count)%nat
        then 0.17
        else if Qltb time_span_hours 48 && bool_decide (15 < txn_count)%nat
        then 0.12
        else if Qltb time_span_hours 168 && bool_decide (25 < txn_count)%nat
        then 0.08
        else 0.0
    end in
  (* Component 4 *)
  let path_similarity_score :=
    match out_edges with
    | [] => 0.0
    | _ =>
        let amounts := edge_totals out_edges in
        let avg_amount := average amounts in
        let similarity_ratio :=
          Qnat (similar_count amounts avg_amount) / Qnat (length amounts) in
        if Qltb 0.7 similarity_ratio && bool_decide (5 ≤ length amounts)%nat
        then 0.10
        else if Qltb 0.5 similarity_ratio
                && bool_decide (5 ≤ length amounts)%nat
        then 0.06
        else 0.0
    end in
  (* Component 5 *)
  '(illicit_proximity_score, proximity_description) ←
     illicit_proximity self wallet in_edges;
  let total_score :=
    fan_out_score + fan_in_score + temporal_burst_score
    + path_similarity_score + illicit_proximity_score in
  mret {| total_suspicion_score := Qmin total_score 1.0;
          fan_out_score := fan_out_score;
          destination_count := fan_out_count;
          fan_out_description := WalletSendsTo fan_out_count;
          fan_in_score := fan_in_score;
          source_count := fan_in_count;
          fan_in_description := WalletReceivesFrom fan_in_count;
          temporal_burst_score := temporal_burst_score;
          temporal_transaction_count := txn_count;
          time_span_hours := time_span_hours;
          temporal_description := TransactionsWithin txn_count time_span_hours;
          path_similarity_score := path_similarity_score;
          path_similarity_description :=
            if Qltb 0 path_similarity_score then StructuringPattern
            else NoClearStructuringPattern;
          illicit_proximity_score := illicit_proximity_score;
          distance_to_illicit := _distance_to_illicit_wallets self wallet;
          proximity_description := proximity_description |}.

(** ** [get_wallet_summary] *)

Record WalletSummary : Type := {
  wallet_address : string;
  ws_suspicion_score : Q;
  centrality : Centrality;
  total_received : Q;
  total_sent : Q;
  unique_senders : nat;
  unique_receivers : nat;
  is_illicit : bool;
  ws_distance_to_illicit : Z
}.

(** The entries of the dictionary are evaluated in the order written. *)
Definition get_wallet_summary {numerics : NxNumerics}
    (self : CryptoGraphAnalyzer) (wallet : string) : Res WalletSummary :=
  let G := graph self in
  suspicion_score ← calculate_suspicion_score self wallet;
  let centrality := calculate_wallet_centrality self wallet in
  let total_received := Qsum (edge_totals (in_edges G wallet)) in
  let total_sent := Qsum (edge_totals (out_edges G wallet)) in
  senders ← predecessors G wallet;
  receivers ← successors G wallet;
  mret {| wallet_address := wallet;
          ws_suspicion_score := suspicion_score;
          centrality := centrality;
          total_received := total_received;
          total_sent := total_sent;
          unique_senders := length senders;
          unique_receivers := length receivers;
          is_illicit := bool_decide (wallet ∈ illicit_wallets self);
          ws_distance_to_illicit := _distance_to_illicit_wallets self wallet |}.

(** ** The four pattern detectors *)

(** The ["evidence"] texts, with the values they display. *)
Inductive Evidence : Type :=
  | HighFanOut (out_count : nat)
  | ModerateFanOut (out_count : nat)
  | ReaggregationDetected (in_count out_count : nat)
  | CollectionPoint (in_count out_count : nat)
  | StructuredAmounts (similar total : nat)
  | DirectConnectionToIllicit (count : nat)
  | LongTransactionChain (max_chain : nat)
  | MediumTransactionChain (max_chain : nat)
  | SequentialPeeling
  | LinearProgression (outputs : nat)
  | DirectRoundTrips (count : nat)
  | TwoHopCycle (neighbor : string)
  | RepetitiveTransactions (repeat_ratio : Q)
  | RapidLayering (count : nat) (time_span : Q)
  | AutomatedTiming (avg_minutes : Q)
  | OffHoursActivity (suspicious_hours count : nat).

Record Pattern : Type := {
  type : string;
  confidence : Q;
  subtype : string;
  evidence : list Evidence
}.

Definition _detect_fan_out_fan_in_pattern (self : CryptoGraphAnalyzer)
    (wallet : string) (in_edges out_edges : list Edge) : Pattern :=
  let in_count := length in_edges in
  let out_count := length out_edges in
  let confidence := 0.0 in
  let evidence : list Evidence := [] in
  let subtype := "SIMPLE_FAN_OUT" in
  let '(confidence, evidence) :=
    if bool_decide (10 ≤ out_count)%nat
    then (confidence + 0.5, evidence ++ [HighFanOut out_count])
    else if bool_decide (5 ≤ out_count)%nat
    then (confidence + 0.3, evidence ++ [ModerateFanOut out_count])
    else (confidence, evidence) in
  let '(confidence, subtype, evidence) :=
    if bool_decide (5 ≤ in_count)%nat && bool_decide (5 ≤ out_count)%nat
    then (confidence + 0.3, "MULTI_LAYER_REAGGREGATION",
          evidence ++ [ReaggregationDetected in_count out_count])
    else if bool_decide (3 ≤ in_count)%nat && bool_decide (5 ≤ out_count)%nat
    then (confidence + 0.2, "COLLECTION_REDISTRIBUTION",
          evidence ++ [CollectionPoint in_count out_count])
    else (confidence, subtype, evidence) in
  let '(confidence, evidence) :=
    match out_edges with
    | [] => (confidence, evidence)
    | _ =>
        let amounts := edge_totals out_edges in
        let avg_amount := average amounts in
        let similar_count := similar_count amounts avg_amount in
        if Qltb 0.7 (Qnat similar_count / Qnat (length amounts))
        then (confidence + 0.2,
              evidence ++ [StructuredAmounts similar_count (length amounts)])
        else (confidence, evidence)
    end in
  let illicit_sources := illicit_sources_of self in_edges in
  let '(confidence, evidence) :=
    match illicit_sources with
    | _ :: _ =>
        (confidence + 0.3,
         evidence ++ [DirectConnectionToIllicit (length illicit_sources)])
    | [] => (confidence, evidence)
    end in
  {| type := "FAN_OUT_FAN_IN";
     confidence := Qmin confidence 1.0;
     subtype := subtype;
     evidence := evidence |}.

(** The inner function [find_chain_length(current, depth, max_depth)] of
    [_detect_peeling_pattern]; [budget] is [max_depth - depth]. *)
Fixpoint find_chain_length (G : DiGraph) (budget : nat) (current : string)
    (depth : nat) : Res nat :=
  match budget with
  | O => Ok depth
  | S budget' =>
      successors ← successors G current;
      match successors with
      | [next] => find_chain_length G budget' next (S depth)
      | _ => Ok depth
      end
  end.

(** [all(amounts[i] > amounts[i+1] * 1.1 for i in range(len(amounts) - 1))] *)
Fixpoint strictly_peeling (amounts : list Q) : bool :=
  match amounts with
  | a :: ((b :: _) as rest) => Qltb (b * 1.1) a && strictly_peeling rest
  | _ => true
  end.

Definition _detect_peeling_pattern (self : CryptoGraphAnalyzer)
    (wallet : string) (out_edges : list Edge) : Res Pattern :=
  let confidence := 0.0 in
  let evidence : list Evidence := [] in
  match out_edges with
  | [] => Ok {| type := "PEELING_CHAIN"; confidence := 0.0;
                subtype := "NONE"; evidence := [] |}
  | _ =>
      lengths ← mapM (λ e, find_chain_length (graph self) 10 (edge_dst e) 0)
                     out_edges;
      let chain_lengths := filter (λ n, 0 < n)%nat lengths in
      let '(confidence, evidence) :=
        match chain_lengths with
        | [] => (confidence, evidence)
        | _ =>
            let max_chain := max_list chain_lengths in
            let '(confidence, evidence) :=
              if bool_decide (5 ≤ max_chain)%nat
              then (confidence + 0.6,
                    evidence ++ [LongTransactionChain max_chain])
              else if bool_decide (3 ≤ max_chain)%nat
              then (confidence + 0.3,
                    evidence ++ [MediumTransactionChain max_chain])
              else (confidence, evidence) in
            if bool_decide (length out_edges ≤ 3)%nat then
              let amounts :=
                sorted_desc (λ a, a) (edge_totals out_edges) in
              if bool_decide (2 ≤ length amounts)%nat
                 && strictly_peeling amounts
              then (confidence + 0.3, evidence ++ [SequentialPeeling])
              else (confidence, evidence)
            else (confidence, evidence)
        end in
      let '(confidence, evidence) :=
        if bool_decide (length out_edges ≤ 2)%nat
        then (confidence + 0.2,
              evidence ++ [LinearProgression (length out_edges)])
        else (confidence, evidence) in
      let subtype :=
        if Qltb 0.5 confidence then "SEQUENTIAL_PEELING"
        else "LINEAR_PROGRESSION" in
      mret {| type := "PEELING_CHAIN";
              confidence := Qmin confidence 1.0;
              subtype := subtype;
              evidence := evidence |}
  end.

(** The loop [for neighbor in out_neighbors: ... break]: the first
    neighbour that has [wallet] among its successors. *)
Fixpoint first_two_hop (G : DiGraph) (wallet : string)
    (out_neighbors : list string) : Res (option string) :=
  match out_neighbors with
  | [] => Ok None
  | neighbor :: rest =>
      second_hop ← successors G neighbor;
      if bool_decide (wallet ∈ second_hop) then Ok (Some neighbor)
      else first_two_hop G wallet rest
  end.

Definition _detect_cyclic_pattern (self : CryptoGraphAnalyzer)
    (wallet : string) : Res Pattern :=
  let G := graph self in
  let confidence := 0.0 in
  let evidence : list Evidence := [] in
  let cycles_found := 0%nat in
  out_neighbors ← successors G wallet;
  in_neighbors ← predecessors G wallet;
  let round_trips : gset string :=
    list_to_set out_neighbors ∩ list_to_set in_neighbors in
  let '(confidence, cycles_found, evidence) :=
    if bool_decide (round_trips ≠ ∅)
    then (confidence + 0.4, (cycles_found + size round_trips)%nat,
          evidence ++ [DirectRoundTrips (size round_trips)])
    else (confidence, cycles_found, evidence) in
  two_hop ← first_two_hop G wallet out_neighbors;
  let '(confidence, cycles_found, evidence) :=
    match two_hop with
    | Some neighbor =>
        (confidence + 0.3, (cycles_found + 1)%nat,
         evidence ++ [TwoHopCycle neighbor])
    | None => (confidence, cycles_found, evidence)
    end in
  let out_edges := out_edges G wallet in
  let '(confidence, evidence) :=
    match out_edges with
    | [] => (confidence, evidence)
    | _ =>
        let destinations := edge_dst <$> out_edges in
        let unique_dest : gset string := list_to_set destinations in
        let repeat_ratio :=
          1 - Qnat (size unique_dest) / Qnat (length destinations) in
        if Qltb 0.5 repeat_ratio
        then (confidence + 0.3, evidence ++ [RepetitiveTransactions repeat_ratio])
        else (confidence, evidence)
    end in
  let subtype :=
    if bool_decide (0 < cycles_found)%nat then "CIRCULAR_WASH"
    else "REPETITIVE_PATTERN" in
  mret {| type := "CYCLIC_WASH";
          confidence := Qmin confidence 1.0;
          subtype := subtype;
          evidence := evidence |}.

(** [all_timestamps[i] - all_timestamps[i-1]] for [i >= 1], in seconds. *)
Fixpoint time_deltas_of (timestamps : list Z) : list Q :=
  match timestamps with
  | a :: ((b :: _) as rest) => inject_Z (b - a) :: time_deltas_of rest
  | _ => []
  end.

(** [time_variance ** 0.5 < bound]: the square root of a variance is below
    [bound] exactly when [bound] is positive and the variance is below its
    square. *)
Definition sqrt_lt (variance bound : Q) : bool :=
  Qltb 0 bound && Qltb variance (bound * bound).

(** [ts.hour] *)
Definition hour (ts : Z) : Z := ((ts / 3600) mod 24)%Z.

Definition _detect_temporal_layering (self : CryptoGraphAnalyzer)
    (wallet : string) (in_edges out_edges : list Edge) : Pattern :=
  let confidence := 0.0 in
  let evidence : list Evidence := [] in
  let all_timestamps :=
    (in_edges ++ out_edges) ≫= (λ e, edge_timestamps (edge_data e)) in
  if bool_decide (length all_timestamps < 5)%nat then
    {| type := "TEMPORAL_LAYERING"; confidence := 0.0;
       subtype := "INSUFFICIENT_DATA"; evidence := [] |}
  else
    let all_timestamps := merge_sort Z.le all_timestamps in
    let time_deltas := time_deltas_of all_timestamps in
    match time_deltas with
    | [] => {| type := "TEMPORAL_LAYERING"; confidence := 0.0;
               subtype := "NONE"; evidence := [] |}
    | _ =>
        let avg_delta := average time_deltas in
        let time_span :=
          hours_between (default 0%Z (head all_timestamps))
                        (List.last all_timestamps 0%Z) in
        let '(confidence, evidence) :=
          if Qltb time_span 24 && bool_decide (10 < length all_timestamps)%nat
          then (confidence + 0.4,
                evidence ++ [RapidLayering (length all_timestamps) time_span])
          else (confidence, evidence) in
        let time_variance :=
          Qsum ((λ delta, (delta - avg_delta) * (delta - avg_delta))
                  <$> time_deltas)
          / Qnat (length time_deltas) in
        let low_variance := sqrt_lt time_variance (avg_delta * 0.2) in
        let '(confidence, evidence) :=
          if low_variance && bool_decide (5 < length time_deltas)%nat
          then (confidence + 0.3, evidence ++ [AutomatedTiming (avg_delta / 60)])
          else (confidence, evidence) in
        let suspicious_hours :=
          length (filter (λ ts, 2 ≤ hour ts < 5)%Z all_timestamps) in
        let '(confidence, evidence) :=
          if Qltb 0.3 (Qnat suspicious_hours / Qnat (length all_timestamps))
          then (confidence + 0.2,
                evidence ++ [OffHoursActivity suspicious_hours
                               (length all_timestamps)])
          else (confidence, evidence) in
        let subtype :=
          if Qltb time_span 6 then "RAPID_BURST"
          else if low_variance then "AUTOMATED_TIMING"
          else "DISTRIBUTED_LAYERING" in
        {| type := "TEMPORAL_LAYERING";
           confidence := Qmin confidence 1.0;
           subtype := subtype;
           evidence := evidence |}
    end.

(** ** [classify_laundering_pattern] *)

(** The returned dictionary: the four keys of a pattern and, for a mixed
    strategy only, ["component_patterns"]. *)
Record Classification : Type := {
  verdict : Pattern;
  component_patterns : option (list Pattern)
}.

Definition NORMAL_ACTIVITY : Pattern :=
  {| type := "NORMAL_ACTIVITY"; confidence := 0.0;
     subtype := "NO_SUSPICIOUS_PATTERN"; evidence := [] |}.

(** [if p["confidence"] > 0.3: patterns.append(p)] *)
Definition qualifying (p : Pattern) : list Pattern :=
  if Qltb 0.3 (confidence p) then [p] else [].

(** What follows the four detector calls: the verdict from the collected
    [patterns]. *)
Definition primary_or_mixed (patterns : list Pattern) : Classification :=
  match sorted_desc confidence patterns with
  | [] => {| verdict := NORMAL_ACTIVITY; component_patterns := None |}
  | [top] => {| verdict := top; component_patterns := None |}
  | first :: second :: _ =>
      if Qltb 0.5 (confidence second) then
        {| verdict :=
             {| type := "MIXED_STRATEGY";
                confidence :=
                  Qmin (confidence first + confidence second * 0.3) 1.0;
                subtype := type first +:+ "_" +:+ type second;
                evidence := evidence first ++ evidence second |};
           component_patterns := Some [first; second] |}
      else {| verdict := first; component_patterns := None |}
  end.

Definition classify_laundering_pattern (self : CryptoGraphAnalyzer)
    (wallet : string) : Res Classification :=
  let in_edges := in_edges (graph self) wallet in
  let out_edges := out_edges (graph self) wallet in
  let fan_pattern :=
    _detect_fan_out_fan_in_pattern self wallet in_edges out_edges in
  let patterns := qualifying fan_pattern in
  peel_pattern ← _detect_peeling_pattern self wallet out_edges;
  let patterns := patterns ++ qualifying peel_pattern in
  cyclic_pattern ← _detect_cyclic_pattern self wallet;
  let patterns := patterns ++ qualifying cyclic_pattern in
  let temporal_pattern :=
    _detect_temporal_layering self wallet in_edges out_edges in
  let patterns := patterns ++ qualifying temporal_pattern in
  mret (primary_or_mixed patterns).

(** ** Vocabulary of the specification *)

(** The transactions of a batch from [s] to [d], in batch order. *)
Definition pair_txns (s d : string) (txns : list Transaction)
    : list Transaction :=
  filter (λ t, source_wallet t = s ∧ dest_wallet t = d) txns.

(** [data] is the aggregate of the transactions [ts]. *)
Definition aggregate_of (ts : list Transaction) (data : EdgeData) : Prop :=
  transactions data = txn_record <$> ts
  ∧ total_amount data == Qsum (amount <$> ts)
  ∧ transaction_count data = length ts.

(** The analyzer after a sequence of [load_transactions] calls on a fresh
    instance. *)
Definition loaded (batches : list (list Transaction)) : CryptoGraphAnalyzer :=
  foldl load_transactions new_analyzer batches.

Definition edge_key (e : Edge) : string * string := (edge_src e, edge_dst e).

Definition transfer (s d : string) (a : Q) (t : Z) : Transaction :=
  {| source_wallet := s; dest_wallet := d; amount := a; timestamp := t;
     token_type := None |}.

(** The aggregation invariant of the store: one edge per ordered pair, and
    each edge is the aggregate of the loaded transactions of its pair. *)
Definition aggregates (txns : list Transaction) (G : DiGraph) : Prop :=
  NoDup (edge_key <$> edges G)
  ∧ ∀ s d,
      match find_edge G s d with
      | Some data =>
          pair_txns s d txns ≠ [] ∧ aggregate_of (pair_txns s d txns) data
      | None => pair_txns s d txns = []
      end.

(** A stand-in for the two numerical procedures of networkx, for the places
    where a concrete instance is needed: no betweenness, uniform PageRank. *)
Definition uniform_numerics : NxNumerics :=
  {| betweenness_centrality G := Ok ((λ n, (n, 0)) <$> nodes G);
     nx_pagerank G :=
       Ok ((λ n, (n, 1 / Qnat (length (nodes G)))) <$> nodes G);
     betweenness_centrality_keys G d k :=
       ltac:(intros [= <-] Hk; rewrite <- list_fmap_compose in Hk;
             apply list_elem_of_fmap in Hk as (n & -> & Hn); exact Hn);
     nx_pagerank_keys G d k :=
       ltac:(intros [= <-] Hk; rewrite <- list_fmap_compose in Hk;
             apply list_elem_of_fmap in Hk as (n & -> & Hn); exact Hn) |}.

(** No path joins [wallet] and a marked wallet, in either direction. *)
Definition unconnected_to_illicit (self : CryptoGraphAnalyzer)
    (wallet : string) : Prop :=
  (wallet ∉ illicit_wallets self)
  ∧ (∀ illicit, illicit ∈ illicit_wallets self →
       has_path (graph self) wallet illicit ≠ Ok true
       ∧ has_path (graph self) illicit wallet ≠ Ok true).

(** The states the analyzer can be in: one edge per ordered pair, and the
    end points of every edge are nodes. *)
Definition well_formed (G : DiGraph) : Prop :=
  NoDup (edge_key <$> edges G)
  ∧ (∀ e, e ∈ edges G → edge_src e ∈ nodes G ∧ edge_dst e ∈ nodes G).

(** Descending order of a key. *)
Definition descending {A} (key : A → Q) (x y : A) : Prop := key y <= key x.

(** The results of the four detectors for a wallet, in the order
    [classify_laundering_pattern] runs them. *)
Definition detector_results (self : CryptoGraphAnalyzer) (wallet : string)
    : Res (list Pattern) :=
  let ins := in_edges (graph self) wallet in
  let outs := out_edges (graph self) wallet in
  peel ← _detect_peeling_pattern self wallet outs;
  cyclic ← _detect_cyclic_pattern self wallet;
  mret [_detect_fan_out_fan_in_pattern self wallet ins outs; peel; cyclic;
        _detect_temporal_layering self wallet ins outs].

(** A wallet that collects from five sources and redistributes to ten
    destinations, one of which starts a chain of five single-output hops;
    the transfers are days apart, at noon. *)
Definition day (n : Z) : Z := (43200 + 86400 * n)%Z.
Definition mixed_example : CryptoGraphAnalyzer :=
  load_transactions new_analyzer
    [ transfer "S1" "W" 500 (day 0); transfer "S2" "W" 700 (day 1);
      transfer "S3" "W" 900 (day 3); transfer "S4" "W" 1100 (day 6);
      transfer "S5" "W" 1300 (day 10);
      transfer "W" "D0" 10 (day 15); transfer "W" "D1" 20 (day 21);
      transfer "W" "D2" 40 (day 28); transfer "W" "D3" 80 (day 36);
      transfer "W" "D4" 160 (day 45); transfer "W" "D5" 320 (day 55);
      transfer "W" "D6" 640 (day 66); transfer "W" "D7" 1280 (day 78);
      transfer "W" "D8" 2560 (day 91); transfer "W" "D9" 5120 (day 105);
      transfer "D0" "E1" 9 (day 106); transfer "E1" "E2" 8 (day 107);
      transfer "E2" "E3" 7 (day 108); transfer "E3" "E4" 6 (day 109);
      transfer "E4" "E5" 5 (day 110) ].

(** The chain A -> B -> C -> D -> E -> F with amounts 100, 94, 88, 82, 76. *)
Definition peeling_example : CryptoGraphAnalyzer :=
  load_transactions new_analyzer
    [ transfer "A" "B" 100 0; transfer "B" "C" 94 60; transfer "C" "D" 88 120;
      transfer "D" "E" 82 180; transfer "E" "F" 76 240 ].



(** A -> B -> A, and nothing else: a strongly connected graph. *)
Definition round_trip_example : CryptoGraphAnalyzer :=
  load_transactions new_analyzer
    [ transfer "A" "B" 1 0; transfer "B" "A" 1 60 ].

(** A -> B -> A is a cycle; C only sends to A. *)
Definition component_example : CryptoGraphAnalyzer :=
  load_transactions new_analyzer
    [ transfer "A" "B" 1 0; transfer "B" "A" 1 60; transfer "C" "A" 1 120 ].

(** Consecutive nodes of [path] are joined by edges of [G]. *)
Fixpoint linked (G : DiGraph) (path : list string) : Prop :=
  match path with
  | u :: ((v :: _) as rest) => is_Some (find_edge G u v) ∧ linked G rest
  | _ => True
  end.

(** The marked wallet X pays W, W pays D1 ... D5, and the payment to D1
    goes on through E and F to T, all within the hour. *)
Definition smurfing_example : CryptoGraphAnalyzer :=
  mark_illicit_wallets
    (load_transactions new_analyzer
       [ transfer "X" "W" 30000 0;
         transfer "W" "D1" 6000 60; transfer "W" "D2" 6000 120;
         transfer "W" "D3" 6000 180; transfer "W" "D4" 6000 240;
         transfer "W" "D5" 6000 300;
         transfer "D1" "E" 5900 360; transfer "E" "F" 5800 420;
         transfer "F" "T" 5700 480 ])
    ["X"].

(** Two paths from A to F that share D: A-B-D-E-F, whose amounts do not
    peel, and A-C-D-E-F, whose amounts do. *)
Definition shared_node_example : CryptoGraphAnalyzer :=
  load_transactions new_analyzer
    [ transfer "A" "B" 10 0; transfer "A" "C" 112 60;
      transfer "B" "D" 20 120; transfer "C" "D" 106 180;
      transfer "D" "E" 100 240; transfer "E" "F" 94 300 ].

(** The weight of a queue entry in the termination measure of the
    traversal: the start entry is expanded whatever [visited] holds. *)
Definition entry_weight (G : DiGraph) (entry : QueueEntry) : nat :=
  if bool_decide (1 < length entry.1.2)%nat then 1
  else S (length (edges G)).

(** The edges whose source has not been visited yet. *)
Definition unvisited_edges (G : DiGraph) (visited : gset string) : nat :=
  length (filter (λ e, edge_src e ∉ visited) (edges G)).

Definition bfs_measure (G : DiGraph) (visited : gset string)
    (queue : list QueueEntry) : nat :=
  sum_list (entry_weight G <$> queue) + unvisited_edges G visited.

(** A queue entry beyond the start: its path has at least two nodes and
    ends at its current node. *)
Definition extended (e : QueueEntry) : Prop :=
  (1 < length e.1.2)%nat ∧ last e.1.2 = Some e.1.1.

(** The totals of the edges along [path]. *)
Fixpoint edge_amounts (G : DiGraph) (path : list string) : list Q :=
  match path with
  | u :: ((v :: _) as rest) =>
      match find_edge G u v with
      | Some data => total_amount data
      | None => 0
      end :: edge_amounts G rest
  | _ => []
  end.

(** What the traversal keeps true of a queue entry: its path is a simple
    path of the graph from [wallet] to its current node, and its amounts
    are the totals along that path. *)
Definition chain_entry (G : DiGraph) (wallet : string) (e : QueueEntry)
    : Prop :=
  head e.1.2 = Some wallet
  ∧ last e.1.2 = Some e.1.1
  ∧ NoDup e.1.2
  ∧ linked G e.1.2
  ∧ e.2 = edge_amounts G e.1.2.

(** The record of the traversal: for each node expanded so far, the path
    with which it was expanded. Such a path ends at its node and, unless it
    is the start, extends by one node the path of an expanded node. *)
Definition expansion_closed (expanded : gmap string (list string)) : Prop :=
  ∀ x p, expanded !! x = Some p →
    last p = Some x
    ∧ (length p = 1%nat
       ∨ ∃ y q, p = q ++ [x] ∧ expanded !! y = Some q).

(** A queue entry pushed when a node was expanded. *)
Definition from_expanded (expanded : gmap string (list string))
    (e : QueueEntry) : Prop :=
  ∃ y q, e.1.2 = q ++ [e.1.1] ∧ expanded !! y = Some q.

(** The marked wallet X pays A, and A pays five destinations. *)
Definition fan_out_example : CryptoGraphAnalyzer :=
  mark_illicit_wallets
    (load_transactions new_analyzer
       [ transfer "X" "A" 500 0;
         transfer "A" "D1" 100 60; transfer "A" "D2" 100 120;
         transfer "A" "D3" 100 180; transfer "A" "D4" 100 240;
         transfer "A" "D5" 100 300 ])
    ["X"].

(** * Properties *)

(** ** Rationals *)

Lemma Qltb_lt x y : Qltb x y = true ↔ x < y.
Proof.
  unfold Qltb. rewrite negb_true_iff. split.
  - intros H. apply Qnot_le_lt. intros Hle.
    apply Qle_bool_iff in Hle. congruence.
  - intros H. destruct (Qle_bool y x) eqn:E; [|done].
    apply Qle_bool_iff in E. exfalso. eapply Qlt_not_le; eauto.
Qed.

Lemma Qltb_ge x y : Qltb x y = false ↔ y <= x.
Proof.
  unfold Qltb. rewrite negb_false_iff. apply Qle_bool_iff.
Qed.

Lemma Qsum_app l1 l2 : Qsum (l1 ++ l2) == Qsum l1 + Qsum l2.
Proof.
  induction l1 as [|a l1 IH]; simpl.
  - ring.
  - rewrite IH. ring.
Qed.

(** ** The graph store *)

Lemma find_snoc {A} (p : A → bool) (l : list A) (x : A) :
  find p (l ++ [x])
  = match find p l with
    | Some y => Some y
    | None => if p x then Some x else None
    end.
Proof.
  induction l as [|a l IH]; simpl; [done|].
  destruct (p a); [done|]. apply IH.
Qed.

Lemma is_edge_true u v e :
  is_edge u v e = true ↔ edge_key e = (u, v).
Proof.
  unfold is_edge, edge_key.
  rewrite andb_true_iff, !bool_decide_eq_true. split.
  - intros [-> ->]. done.
  - intros [= -> ->]. done.
Qed.

Lemma is_edge_refl u v data : is_edge u v (u, v, data) = true.
Proof. by apply is_edge_true. Qed.

Lemma find_edge_None G u v :
  find_edge G u v = None ↔ (u, v) ∉ edge_key <$> edges G.
Proof.
  unfold find_edge. destruct G as [ns es]; simpl.
  induction es as [|e es IH]; simpl.
  - split; [intros _; apply not_elem_of_nil | done].
  - destruct (is_edge u v e) eqn:E; simpl.
    + apply is_edge_true in E. split; [done|].
      intros H. exfalso. apply H. rewrite E. left.
    + rewrite not_elem_of_cons, IH. split; [|tauto].
      intros H. split; [|done]. intros Heq.
      assert (is_edge u v e = true) by (apply is_edge_true; done).
      congruence.
Qed.

Lemma find_edge_elem_of G u v data :
  find_edge G u v = Some data → (u, v, data) ∈ edges G.
Proof.
  unfold find_edge. destruct G as [ns es]; simpl.
  induction es as [|e es IH]; simpl; [done|].
  destruct (is_edge u v e) eqn:E; simpl.
  - apply is_edge_true in E. intros [= <-].
    destruct e as [[s d] dt]. unfold edge_key, edge_src, edge_dst in E.
    simpl in *. injection E as -> ->. left.
  - intros H. right. by apply IH.
Qed.

Lemma elem_of_find_edge G u v data :
  NoDup (edge_key <$> edges G) →
  (u, v, data) ∈ edges G → find_edge G u v = Some data.
Proof.
  unfold find_edge. destruct G as [ns es]; simpl.
  induction es as [|e es IH]; simpl; intros Hnd Hin.
  - by apply elem_of_nil in Hin.
  - apply NoDup_cons in Hnd as [Hnotin Hnd].
    apply elem_of_cons in Hin as [<-|Hin].
    + by rewrite is_edge_refl.
    + destruct (is_edge u v e) eqn:E; [|by apply IH].
      apply is_edge_true in E. exfalso. apply Hnotin. rewrite E.
      change (u, v) with (edge_key (u, v, data)).
      by apply list_elem_of_fmap_2.
Qed.

Lemma alter_edge_keys f u v es :
  edge_key <$> alter_edge f u v es = edge_key <$> es.
Proof.
  unfold alter_edge. rewrite <- list_fmap_compose.
  apply list_fmap_ext. intros _ e _. simpl. by destruct (is_edge u v e).
Qed.

Lemma find_alter_edge f u v s d es :
  edge_data <$> find (is_edge s d) (alter_edge f u v es)
  = (λ data, if bool_decide ((s, d) = (u, v)) then f data else data)
      <$> (edge_data <$> find (is_edge s d) es).
Proof.
  induction es as [|e es IH]; simpl; [done|].
  destruct (is_edge u v e) eqn:Euv.
  - destruct (is_edge s d e) eqn:Esd.
    + assert (is_edge s d (edge_src e, edge_dst e, f (edge_data e)) = true)
        as -> by (apply is_edge_true; by apply is_edge_true in Esd).
      simpl. apply is_edge_true in Euv, Esd.
      rewrite bool_decide_eq_true_2 by congruence. done.
    + assert (is_edge s d (edge_src e, edge_dst e, f (edge_data e)) = false)
        as ->; [|apply IH].
      apply not_true_is_false. intros H. apply is_edge_true in H.
      apply not_true_iff_false in Esd. apply Esd. by apply is_edge_true.
  - destruct (is_edge s d e) eqn:Esd; [|apply IH].
    simpl. apply is_edge_true in Esd.
    rewrite bool_decide_eq_false_2; [done|].
    intros Heq. apply not_true_iff_false in Euv. apply Euv.
    apply is_edge_true. congruence.
Qed.

Lemma add_node_edges G n : edges (add_node G n) = edges G.
Proof. unfold add_node. by destruct (has_node G n). Qed.

Lemma has_edge_find G u v :
  has_edge G u v = bool_decide (is_Some (find_edge G u v)).
Proof.
  unfold has_edge. destruct (find_edge G u v); symmetry.
  - by apply bool_decide_eq_true_2.
  - apply bool_decide_eq_false_2. by intros [? ?].
Qed.

(** The new aggregate of the pair of [txn] after [load_transaction]. *)
Lemma find_edge_load_same G txn :
  find_edge (load_transaction G txn) (source_wallet txn) (dest_wallet txn)
  = Some match find_edge G (source_wallet txn) (dest_wallet txn) with
         | Some d =>
             {| transactions := transactions d ++ [txn_record txn];
                total_amount := total_amount d + amount txn;
                transaction_count := transaction_count d + 1 |}
         | None =>
             {| transactions := [txn_record txn];
                total_amount := amount txn;
                transaction_count := 1 |}
         end.
Proof.
  unfold load_transaction. rewrite has_edge_find.
  destruct (find_edge G _ _) as [d0|] eqn:E.
  - rewrite bool_decide_eq_true_2 by eauto.
    unfold find_edge in *. simpl. rewrite find_alter_edge, E. simpl.
    by rewrite bool_decide_eq_true_2.
  - rewrite bool_decide_eq_false_2 by (by intros [? ?]).
    unfold add_edge. rewrite has_edge_find, E.
    rewrite bool_decide_eq_false_2 by (by intros [? ?]).
    unfold find_edge in *. simpl. rewrite !add_node_edges, find_snoc.
    destruct (find _ (edges G)); [done|]. by rewrite is_edge_refl.
Qed.

(** The aggregates of the other pairs are left alone. *)
Lemma find_edge_load_other G txn s d :
  (s, d) ≠ (source_wallet txn, dest_wallet txn) →
  find_edge (load_transaction G txn) s d = find_edge G s d.
Proof.
  intros Hne. unfold load_transaction. rewrite has_edge_find.
  destruct (find_edge G (source_wallet txn) _) as [d0|] eqn:E.
  - rewrite bool_decide_eq_true_2 by eauto.
    unfold find_edge. simpl. rewrite find_alter_edge.
    rewrite bool_decide_eq_false_2 by done.
    by destruct (find _ (edges G)).
  - rewrite bool_decide_eq_false_2 by (by intros [? ?]).
    unfold add_edge. rewrite has_edge_find, E.
    rewrite bool_decide_eq_false_2 by (by intros [? ?]).
    unfold find_edge. simpl. rewrite !add_node_edges, find_snoc.
    destruct (find _ (edges G)); [done|].
    assert (is_edge s d (source_wallet txn, dest_wallet txn,
              {| transactions := [txn_record txn];
                 total_amount := amount txn;
                 transaction_count := 1 |}) = false) as ->; [|done].
    apply not_true_is_false. intros H. apply is_edge_true in H.
    apply Hne. unfold edge_key, edge_src, edge_dst in H. simpl in H.
    congruence.
Qed.

Lemma load_transaction_NoDup G txn :
  NoDup (edge_key <$> edges G) →
  NoDup (edge_key <$> edges (load_transaction G txn)).
Proof.
  intros Hnd. unfold load_transaction. rewrite has_edge_find.
  destruct (find_edge G (source_wallet txn) _) as [d0|] eqn:E.
  - rewrite bool_decide_eq_true_2 by eauto. simpl.
    by rewrite alter_edge_keys.
  - rewrite bool_decide_eq_false_2 by (by intros [? ?]).
    unfold add_edge. rewrite has_edge_find, E.
    rewrite bool_decide_eq_false_2 by (by intros [? ?]). simpl.
    rewrite !add_node_edges, fmap_app. apply NoDup_app. split; [done|].
    split; [|apply NoDup_singleton].
    intros k Hk Hk'. apply list_elem_of_singleton in Hk'. subst k.
    by apply find_edge_None in E.
Qed.

Lemma pair_txns_snoc_same txns txn :
  pair_txns (source_wallet txn) (dest_wallet txn) (txns ++ [txn])
  = pair_txns (source_wallet txn) (dest_wallet txn) txns ++ [txn].
Proof.
  unfold pair_txns. rewrite filter_app. f_equal.
  by rewrite filter_cons_True.
Qed.

Lemma pair_txns_snoc_other s d txns txn :
  (s, d) ≠ (source_wallet txn, dest_wallet txn) →
  pair_txns s d (txns ++ [txn]) = pair_txns s d txns.
Proof.
  intros Hne. unfold pair_txns. rewrite filter_app.
  rewrite (filter_cons_False _ txn); [by rewrite app_nil_r|].
  intros [<- <-]. done.
Qed.

Lemma aggregate_of_snoc ts txn data :
  aggregate_of ts data →
  aggregate_of (ts ++ [txn])
    {| transactions := transactions data ++ [txn_record txn];
       total_amount := total_amount data + amount txn;
       transaction_count := transaction_count data + 1 |}.
Proof.
  intros (Ht & Ha & Hc). unfold aggregate_of. simpl.
  rewrite !fmap_app, Ht, Hc, length_app, Qsum_app, Ha. simpl.
  split; [done|]. split; [ring|done].
Qed.

Lemma aggregate_of_singleton txn :
  aggregate_of [txn]
    {| transactions := [txn_record txn];
       total_amount := amount txn;
       transaction_count := 1 |}.
Proof. unfold aggregate_of. simpl. split; [done|]. split; [ring|done]. Qed.

(** [load_transaction] keeps the aggregation invariant. *)
Lemma load_transaction_aggregates txns G txn :
  aggregates txns G → aggregates (txns ++ [txn]) (load_transaction G txn).
Proof.
  intros [Hnd Hagg]. split; [by apply load_transaction_NoDup|].
  intros s d.
  destruct (decide ((s, d) = (source_wallet txn, dest_wallet txn)))
    as [[= -> ->]|Hne].
  - rewrite find_edge_load_same, pair_txns_snoc_same.
    split; [by intros [_ ?]%app_eq_nil|].
    specialize (Hagg (source_wallet txn) (dest_wallet txn)).
    destruct (find_edge G _ _) as [data|].
    + destruct Hagg as [_ Hagg]. by apply aggregate_of_snoc.
    + rewrite Hagg. apply aggregate_of_singleton.
  - rewrite find_edge_load_other, pair_txns_snoc_other by done.
    apply Hagg.
Qed.

Lemma foldl_load_aggregates txns :
  aggregates txns (foldl load_transaction (graph new_analyzer) txns).
Proof.
  induction txns as [|txn txns IH] using rev_ind.
  - split; [constructor|]. intros s d. done.
  - rewrite foldl_snoc. by apply load_transaction_aggregates.
Qed.

Lemma loaded_graph batches :
  graph (loaded batches)
  = foldl load_transaction (graph new_analyzer) (concat batches).
Proof.
  unfold loaded.
  induction batches as [|b bs IH] using rev_ind; [done|].
  rewrite foldl_snoc, concat_app, foldl_app. simpl.
  by rewrite app_nil_r, IH.
Qed.

(** C7. After any sequence of [load_transactions] calls on a fresh analyzer
    there is at most one aggregate edge per ordered (source, dest) pair; the
    edge of a pair holds its transactions in insertion order, the sum of
    their amounts and their number, and a pair has an edge exactly when a
    transaction was loaded for it. Loading A->B (10, t0) and A->B (5, t1)
    gives the single edge with total 15, count 2 and both transactions. *)
Theorem load_transactions_aggregate_edges :
  (∀ batches : list (list Transaction),
     let G := graph (loaded batches) in
     let txns := concat batches in
     NoDup (edge_key <$> edges G)
     ∧ (∀ s d data, (s, d, data) ∈ edges G →
          transactions data = txn_record <$> pair_txns s d txns
          ∧ total_amount data == Qsum (amount <$> pair_txns s d txns)
          ∧ transaction_count data = length (pair_txns s d txns))
     ∧ (∀ s d, pair_txns s d txns ≠ [] ↔ ∃ data, (s, d, data) ∈ edges G))
  ∧ (∀ t0 t1 : Z,
       edges (graph (load_transactions new_analyzer
                       [transfer "A" "B" 10 t0; transfer "A" "B" 5 t1]))
       = [("A", "B",
           {| transactions :=
                [ {| rec_amount := 10; rec_timestamp := t0;
                     rec_token_type := "UNKNOWN" |};
                  {| rec_amount := 5; rec_timestamp := t1;
                     rec_token_type := "UNKNOWN" |} ];
              total_amount := 15;
              transaction_count := 2 |})]).
Proof.
  split; [|done].
  intros batches G txns. subst G txns. rewrite loaded_graph.
  destruct (foldl_load_aggregates (concat batches)) as [Hnd Hagg].
  split; [done|]. split.
  - intros s d data Hin. apply elem_of_find_edge in Hin; [|done].
    specialize (Hagg s d). rewrite Hin in Hagg. apply Hagg.
  - intros s d. specialize (Hagg s d). split.
    + intros Hne. destruct (find_edge _ s d) as [data|] eqn:E; [|done].
      exists data. by apply find_edge_elem_of.
    + intros [data Hin]. apply elem_of_find_edge in Hin; [|done].
      rewrite Hin in Hagg. apply Hagg.
Qed.

Lemma load_transactions_aggregate_edges_witness :
  let data :=
    {| transactions :=
         [ {| rec_amount := 10; rec_timestamp := 0;
              rec_token_type := "UNKNOWN" |};
           {| rec_amount := 5; rec_timestamp := 60;
              rec_token_type := "UNKNOWN" |} ];
       total_amount := 15;
       transaction_count := 2 |} in
  total_amount data
  == Qsum (amount <$> pair_txns "A" "B"
             [transfer "A" "B" 10 0; transfer "A" "B" 5 60]).
Proof.
  intros data. destruct load_transactions_aggregate_edges as [H _].
  destruct (H [[transfer "A" "B" 10 0; transfer "A" "B" 5 60]])
    as (_ & Hagg & _).
  apply (Hagg "A" "B" data). vm_compute. left.
Defined.

(** ** [mark_illicit_wallets] *)

(** C2, as stated, fails: marking ["Y"] after ["X"] forgets ["X"]. *)
Lemma mark_illicit_wallets_union_counterexample :
  let self := mark_illicit_wallets new_analyzer ["X"] in
  illicit_wallets (mark_illicit_wallets self ["Y"])
  ≠ illicit_wallets self ∪ list_to_set ["Y"].
Proof.
  intros self Heq.
  assert ("X" ∈ illicit_wallets (mark_illicit_wallets self ["Y"])) as Hin.
  { rewrite Heq. apply elem_of_union_l. apply elem_of_list_to_set. left. }
  apply elem_of_list_to_set, list_elem_of_singleton in Hin. done.
Qed.

(** C2, amended. After [mark_illicit_wallets(L)] the illicit set is exactly
    the set of the addresses in [L], whatever it was before: the graph is
    untouched, and a second call replaces what the first one marked. *)
Theorem mark_illicit_wallets_replaces :
  ∀ (self : CryptoGraphAnalyzer) (L L' : list string),
    (∀ x, x ∈ illicit_wallets (mark_illicit_wallets self L) ↔ x ∈ L)
    ∧ graph (mark_illicit_wallets self L) = graph self
    ∧ mark_illicit_wallets (mark_illicit_wallets self L') L
      = mark_illicit_wallets self L.
Proof.
  intros self L L'. split; [|done].
  intros x. simpl. apply elem_of_list_to_set.
Qed.

(** ** Wallets in and out of the graph *)

Lemma has_node_true G n : has_node G n = true ↔ n ∈ nodes G.
Proof. apply bool_decide_eq_true. Qed.

Lemma has_node_false G n : has_node G n = false ↔ n ∉ nodes G.
Proof. apply bool_decide_eq_false. Qed.

Lemma in_edges_present G w :
  has_node G w = true → in_edges G w = pred_edges G w.
Proof.
  intros H. unfold in_edges, nbunch_iter. rewrite H. simpl.
  apply app_nil_r.
Qed.

Lemma out_edges_present G w :
  has_node G w = true → out_edges G w = succ_edges G w.
Proof.
  intros H. unfold out_edges, nbunch_iter. rewrite H. simpl.
  apply app_nil_r.
Qed.

Lemma shortest_path_length_absent_l G s t :
  has_node G s = false → shortest_path_length G s t = Raise NodeNotFound.
Proof. intros H. unfold shortest_path_length. by rewrite H. Qed.

Lemma distance_step_absent G wallet md illicit :
  has_node G wallet = false → distance_step G wallet md illicit = md.
Proof.
  intros H. unfold distance_step, has_path.
  by rewrite shortest_path_length_absent_l.
Qed.

Lemma foldl_distance_step_absent G wallet md l :
  has_node G wallet = false → foldl (distance_step G wallet) md l = md.
Proof.
  intros H. induction l as [|i l IH]; simpl; [done|].
  by rewrite distance_step_absent.
Qed.

(** For a wallet that is not a node every path query raises, and the
    distance is the sentinel unless the wallet itself is marked. *)
Lemma distance_absent self wallet :
  has_node (graph self) wallet = false →
  _distance_to_illicit_wallets self wallet
  = if bool_decide (wallet ∈ illicit_wallets self) then 0%Z else (-1)%Z.
Proof.
  intros H. unfold _distance_to_illicit_wallets.
  case_bool_decide; [done|]. by rewrite foldl_distance_step_absent.
Qed.

Lemma pred_edges_find G w e :
  e ∈ pred_edges G w → is_Some (find_edge G (edge_src e) w).
Proof.
  unfold pred_edges. intros [Hdst Hin]%list_elem_of_filter.
  destruct (find_edge G (edge_src e) w) eqn:E; [eauto|].
  apply find_edge_None in E. exfalso. apply E.
  apply list_elem_of_fmap. exists e. split; [|done].
  unfold edge_key. by rewrite Hdst.
Qed.

Lemma mapM_Res_cons {A B} (f : A → Res B) x l :
  mapM f (x :: l) = y ← f x; k ← mapM f l; mret (y :: k).
Proof. done. Qed.

Lemma mapM_Res_ok {A B} (f : A → Res B) l :
  (∀ x, x ∈ l → ∃ y, f x = Ok y) → ∃ k, mapM f l = Ok k.
Proof.
  induction l as [|x l IH]; intros Hall.
  - by eexists.
  - rewrite mapM_Res_cons.
    destruct (Hall x) as [y ->]; [left|].
    destruct IH as [k ->]; [intros; apply Hall; by right|].
    by eexists.
Qed.

Lemma total_from_ok self wallet srcs :
  (∀ src, src ∈ srcs → is_Some (find_edge (graph self) src wallet)) →
  ∃ q, total_from self wallet srcs = Ok q.
Proof.
  intros Hall. unfold total_from.
  destruct (mapM_Res_ok
              (λ src, total_amount <$> get_edge (graph self) src wallet) srcs)
    as [k ->]; [|by eexists].
  intros src Hsrc. destruct (Hall src Hsrc) as [d Hd].
  unfold get_edge. rewrite Hd. by eexists.
Qed.

Lemma total_from_in_edges_ok self wallet :
  has_node (graph self) wallet = true →
  ∃ q, total_from self wallet
         (illicit_sources_of self (in_edges (graph self) wallet)) = Ok q.
Proof.
  intros H. apply total_from_ok. intros src Hsrc.
  unfold illicit_sources_of in Hsrc.
  apply list_elem_of_filter in Hsrc as [_ Hsrc].
  apply list_elem_of_fmap in Hsrc as (e & -> & He).
  rewrite in_edges_present in He by done. by apply pred_edges_find.
Qed.

(** ** [calculate_suspicion_breakdown] *)

(** Closes an inequality between decimal constants. *)
Ltac Qconst := unfold Qle, Qlt; simpl; lia.

Lemma illicit_proximity_ok self wallet :
  ∃ s desc,
    illicit_proximity self wallet (in_edges (graph self) wallet) = Ok (s, desc)
    ∧ 0 <= s ∧ s <= 0.50
    ∧ (_distance_to_illicit_wallets self wallet = (-1)%Z → s = 0.0).
Proof.
  unfold illicit_proximity.
  destruct (decide (_distance_to_illicit_wallets self wallet = 0%Z)) as [E0|E0].
  { rewrite bool_decide_eq_true_2 by done. do 2 eexists.
    split; [done|]. rewrite E0. repeat split; Qconst. }
  rewrite (bool_decide_eq_false_2 _ E0).
  destruct (decide (_distance_to_illicit_wallets self wallet = 1%Z)) as [E1|E1].
  { rewrite bool_decide_eq_true_2 by done.
    destruct (has_node (graph self) wallet) eqn:Hn.
    - destruct (total_from_in_edges_ok self wallet Hn) as [q Hq].
      destruct (illicit_sources_of _ _) as [|src srcs].
      + do 2 eexists. split; [done|]. rewrite E1.
        repeat split; Qconst.
      + rewrite Hq. simpl. do 2 eexists. split; [done|]. rewrite E1.
        destruct (Qltb 100 q); repeat split; Qconst.
    - rewrite distance_absent in E1 by done. by case_bool_decide. }
  rewrite (bool_decide_eq_false_2 _ E1).
  repeat case_bool_decide; do 2 eexists; (split; [done|]);
    repeat split; try Qconst; try done.
Qed.

(** C8. For every wallet [calculate_suspicion_breakdown] returns a
    breakdown whose five components are non-negative and at most 0.35
    (fan-out), 0.28 (fan-in), 0.17 (temporal burst), 0.10 (path similarity)
    and 0.50 (illicit proximity), and whose total is the minimum of their
    sum and 1.0. *)
Theorem suspicion_breakdown_bounds :
  ∀ (self : CryptoGraphAnalyzer) (wallet : string),
    ∃ b, calculate_suspicion_breakdown self wallet = Ok b
      ∧ (0 <= fan_out_score b ∧ fan_out_score b <= 0.35)
      ∧ (0 <= fan_in_score b ∧ fan_in_score b <= 0.28)
      ∧ (0 <= temporal_burst_score b ∧ temporal_burst_score b <= 0.17)
      ∧ (0 <= path_similarity_score b ∧ path_similarity_score b <= 0.10)
      ∧ (0 <= illicit_proximity_score b ∧ illicit_proximity_score b <= 0.50)
      ∧ total_suspicion_score b
        = Qmin (fan_out_score b + fan_in_score b + temporal_burst_score b
                + path_similarity_score b + illicit_proximity_score b) 1.0.
Proof.
  intros self wallet. unfold calculate_suspicion_breakdown. cbv zeta.
  destruct (illicit_proximity_ok self wallet) as (s & desc & -> & Hs0 & Hs1 & _).
  eexists. split; [reflexivity|]. cbn [fan_out_score fan_in_score
    temporal_burst_score path_similarity_score illicit_proximity_score
    total_suspicion_score].
  split; [repeat case_bool_decide; split; Qconst|].
  split; [repeat case_bool_decide; split; Qconst|].
  split.
  { destruct (_ ≫= _) as [|ts l]; [split; Qconst|].
    repeat (destruct (_ && _)); split; Qconst. }
  split.
  { destruct (out_edges _ _) as [|e l]; [split; Qconst|].
    repeat (destruct (_ && _)); split; Qconst. }
  split; [done|]. reflexivity.
Qed.

(** ** The sentinel distance *)

Lemma distance_step_no_path G wallet illicit :
  has_path G wallet illicit ≠ Ok true →
  has_path G illicit wallet ≠ Ok true →
  distance_step G wallet None illicit = None.
Proof.
  intros H1 H2. unfold distance_step.
  destruct (has_path G wallet illicit) as [[]|]; [done| |done]. simpl.
  by destruct (has_path G illicit wallet) as [[]|].
Qed.

Lemma foldl_distance_step_no_path G wallet l :
  (∀ i, i ∈ l → has_path G wallet i ≠ Ok true ∧ has_path G i wallet ≠ Ok true) →
  foldl (distance_step G wallet) None l = None.
Proof.
  induction l as [|i l IH]; intros Hall; simpl; [done|].
  destruct (Hall i) as [H1 H2]; [left|].
  rewrite distance_step_no_path by done.
  apply IH. intros j Hj. apply Hall. by right.
Qed.

(** Unreachable illicit wallets give the sentinel [-1]. *)
Lemma distance_unconnected self wallet :
  unconnected_to_illicit self wallet →
  _distance_to_illicit_wallets self wallet = (-1)%Z.
Proof.
  intros [Hnot Hall]. unfold _distance_to_illicit_wallets.
  rewrite bool_decide_eq_false_2 by done.
  rewrite foldl_distance_step_no_path; [done|].
  intros i Hi. apply Hall. by apply elem_of_elements.
Qed.

Section Scalar_score.
Context {numerics : NxNumerics}.

(** C10. For a wallet of the graph that no path joins to an illicit wallet
    the distance is the sentinel [-1]; the scalar score still gives the
    illicit-connection component the value 0.15, which enters the score as
    0.075, while the illicit-proximity component of the breakdown is 0. *)
Theorem sentinel_distance_scores :
  ∀ (self : CryptoGraphAnalyzer) (wallet : string),
    wallet ∈ nodes (graph self) →
    unconnected_to_illicit self wallet →
    _distance_to_illicit_wallets self wallet = (-1)%Z
    ∧ illicit_connection_score self wallet = Ok 0.15
    ∧ (∃ score, calculate_suspicion_score self wallet = Ok score
         ∧ score == Qmin (0.075
                          + centrality_score
                              (calculate_wallet_centrality self wallet) * 0.2
                          + _analyze_transaction_patterns self wallet * 0.3) 1)
    ∧ (∃ b, calculate_suspicion_breakdown self wallet = Ok b
         ∧ illicit_proximity_score b = 0.0).
Proof.
  intros self wallet _ Hun.
  pose proof (distance_unconnected self wallet Hun) as Hd.
  assert (illicit_connection_score self wallet = Ok 0.15) as Hc.
  { unfold illicit_connection_score. by rewrite Hd. }
  split; [done|]. split; [done|]. split.
  - unfold calculate_suspicion_score. rewrite Hc. simpl.
    eexists. split; [reflexivity|].
    apply Q.min_compat; [ring|reflexivity].
  - unfold calculate_suspicion_breakdown. cbv zeta.
    destruct (illicit_proximity_ok self wallet) as (s & desc & -> & _ & _ & Hs).
    eexists. split; [reflexivity|]. simpl. by apply Hs.
Qed.

End Scalar_score.

Lemma sentinel_distance_scores_witness :
  let self :=
    mark_illicit_wallets
      (load_transactions new_analyzer
         [transfer "A" "B" 10 0; transfer "C" "D" 5 60]) ["C"] in
  illicit_connection_score self "A" = Ok 0.15
  ∧ ∃ b, calculate_suspicion_breakdown self "A" = Ok b
         ∧ illicit_proximity_score b = 0.0.
Proof.
  intros self.
  destruct (sentinel_distance_scores (numerics := uniform_numerics) self "A")
    as (_ & Hc & _ & Hb).
  - vm_compute. left.
  - split.
    + vm_compute. discriminate.
    + intros i Hi. apply elem_of_list_to_set in Hi.
      apply list_elem_of_singleton in Hi. subst i.
      split; vm_compute; discriminate.
  - split; [exact Hc | exact Hb].
Defined.

(** ** Well-formed graphs *)

Lemma add_node_nodes G n m :
  m ∈ nodes (add_node G n) ↔ m ∈ nodes G ∨ m = n.
Proof.
  unfold add_node. destruct (has_node G n) eqn:E.
  - apply has_node_true in E. split; [by left|]. by intros [?| ->].
  - simpl. rewrite elem_of_app, list_elem_of_singleton. done.
Qed.

Lemma load_transaction_well_formed G txn :
  well_formed G → well_formed (load_transaction G txn).
Proof.
  intros [Hnd Hends]. split; [by apply load_transaction_NoDup|].
  intros e He. unfold load_transaction in *.
  destruct (has_edge G (source_wallet txn) (dest_wallet txn)) eqn:E.
  - simpl in *. unfold alter_edge in He.
    apply list_elem_of_fmap in He as (e0 & -> & He0).
    destruct (Hends e0 He0). by destruct (is_edge _ _ e0).
  - unfold add_edge in *. rewrite E in *. simpl in *.
    rewrite !add_node_edges in He.
    apply elem_of_app in He as [He|He%list_elem_of_singleton].
    + destruct (Hends e He).
      split; apply add_node_nodes; left; apply add_node_nodes; by left.
    + subst e. unfold edge_src, edge_dst. simpl.
      split; apply add_node_nodes; [left; apply add_node_nodes|]; by right.
Qed.

(** Every state reached from a fresh analyzer is well formed. *)
Lemma loaded_well_formed batches : well_formed (graph (loaded batches)).
Proof.
  rewrite loaded_graph.
  induction (concat batches) as [|txn txns IH] using rev_ind.
  - split; [constructor|]. by intros e ?%elem_of_nil.
  - rewrite foldl_snoc. by apply load_transaction_well_formed.
Qed.

Lemma succs_nodes G n m :
  well_formed G → m ∈ succs G n → m ∈ nodes G.
Proof.
  intros [_ Hends] Hm. unfold succs, succ_edges in Hm.
  apply list_elem_of_fmap in Hm as (e & -> & [_ He]%list_elem_of_filter).
  by apply Hends.
Qed.

Lemma successors_ok G n :
  n ∈ nodes G → successors G n = Ok (succs G n).
Proof.
  intros H. unfold successors. by rewrite (proj2 (has_node_true G n) H).
Qed.

Lemma predecessors_ok G n :
  n ∈ nodes G → predecessors G n = Ok (preds G n).
Proof.
  intros H. unfold predecessors. by rewrite (proj2 (has_node_true G n) H).
Qed.

(** ** Sorting *)

Lemma insert_desc_perm {A} (key : A → Q) x l :
  insert_desc key x l ≡ₚ x :: l.
Proof.
  induction l as [|y l IH]; simpl; [done|].
  destruct (Qltb (key x) (key y)); [|done].
  rewrite IH. apply Permutation_swap.
Qed.

Lemma sorted_desc_perm {A} (key : A → Q) l : sorted_desc key l ≡ₚ l.
Proof.
  induction l as [|x l IH]; simpl; [done|].
  unfold sorted_desc in *. simpl. by rewrite insert_desc_perm, IH.
Qed.

Lemma insert_desc_sorted {A} (key : A → Q) x l :
  Sorted (descending key) l → Sorted (descending key) (insert_desc key x l).
Proof.
  induction l as [|y l IH]; simpl; intros Hs.
  - by repeat constructor.
  - destruct (Qltb (key x) (key y)) eqn:E.
    + apply Sorted_inv in Hs as [Hs Hhd]. constructor; [by apply IH|].
      destruct l as [|z l]; simpl.
      * constructor. apply Qltb_lt in E. by apply Qlt_le_weak.
      * destruct (Qltb (key x) (key z)).
        -- constructor. by apply HdRel_inv in Hhd.
        -- constructor. apply Qltb_lt in E. by apply Qlt_le_weak.
    + constructor; [done|]. constructor. by apply Qltb_ge in E.
Qed.

Lemma sorted_desc_sorted {A} (key : A → Q) l :
  Sorted (descending key) (sorted_desc key l).
Proof.
  induction l as [|x l IH]; [constructor|].
  by apply insert_desc_sorted.
Qed.

(** An element that no element of the list outranks goes to the front. *)
Lemma insert_desc_front {A} (key : A → Q) x l :
  Forall (λ y, key y <= key x) l → insert_desc key x l = x :: l.
Proof.
  intros Hall. destruct l as [|y l]; simpl; [done|].
  apply Forall_cons in Hall as [Hy _].
  by rewrite (proj2 (Qltb_ge _ _) Hy).
Qed.

(** ** The detectors return *)

Ltac destruct_lets :=
  repeat match goal with
         | |- context [match ?x with (_, _) => _ end] => destruct x
         end.

Lemma out_edges_edges G w e : e ∈ out_edges G w → e ∈ edges G.
Proof.
  unfold out_edges. intros (n & He & _)%list_elem_of_bind.
  unfold succ_edges in He. by apply list_elem_of_filter in He as [_ ?].
Qed.

Lemma find_chain_length_ok G budget current depth :
  well_formed G → current ∈ nodes G →
  ∃ n, find_chain_length G budget current depth = Ok n.
Proof.
  intros Hwf. revert current depth.
  induction budget as [|budget IH]; intros current depth Hin; simpl.
  - by eexists.
  - rewrite successors_ok by done. simpl.
    destruct (succs G current) as [|next [|]] eqn:E; try by eexists.
    apply IH. apply (succs_nodes G current); [done|]. rewrite E. left.
Qed.

Lemma _detect_peeling_pattern_ok self wallet :
  well_formed (graph self) →
  ∃ p, _detect_peeling_pattern self wallet (out_edges (graph self) wallet)
       = Ok p
       ∧ type p = "PEELING_CHAIN".
Proof.
  intros Hwf. unfold _detect_peeling_pattern.
  destruct (mapM_Res_ok
              (λ e, find_chain_length (graph self) 10 (edge_dst e) 0)
              (out_edges (graph self) wallet)) as [lengths ->].
  { intros e He. apply find_chain_length_ok; [done|].
    apply out_edges_edges in He. by apply Hwf. }
  destruct (out_edges _ _); [by eexists|]. simpl.
  destruct_lets. by eexists.
Qed.

Lemma first_two_hop_ok G wallet out_neighbors :
  (∀ n, n ∈ out_neighbors → n ∈ nodes G) →
  ∃ r, first_two_hop G wallet out_neighbors = Ok r.
Proof.
  induction out_neighbors as [|n l IH]; intros Hall; simpl.
  - by eexists.
  - rewrite successors_ok by (apply Hall; left). simpl.
    case_bool_decide; [by eexists|].
    apply IH. intros m Hm. apply Hall. by right.
Qed.

Lemma _detect_cyclic_pattern_ok self wallet :
  well_formed (graph self) → wallet ∈ nodes (graph self) →
  ∃ p, _detect_cyclic_pattern self wallet = Ok p ∧ type p = "CYCLIC_WASH".
Proof.
  intros Hwf Hin. unfold _detect_cyclic_pattern.
  rewrite successors_ok, predecessors_ok by done. simpl.
  destruct (first_two_hop_ok (graph self) wallet (succs (graph self) wallet))
    as [r ->].
  { intros n Hn. by eapply succs_nodes. }
  simpl. destruct_lets. by eexists.
Qed.

Lemma _detect_fan_out_fan_in_pattern_type self wallet ins outs :
  type (_detect_fan_out_fan_in_pattern self wallet ins outs)
  = "FAN_OUT_FAN_IN".
Proof. unfold _detect_fan_out_fan_in_pattern. by destruct_lets. Qed.

Lemma qualifying_filter p :
  qualifying p = filter (λ p, 0.3 < confidence p) [p].
Proof.
  unfold qualifying. rewrite filter_cons, filter_nil.
  destruct (Qltb 0.3 (confidence p)) eqn:E.
  - apply Qltb_lt in E. by rewrite decide_True.
  - apply Qltb_ge in E. rewrite decide_False; [done|]. by apply Qle_not_lt.
Qed.

(** The verdict from the ranked list, case by case. *)
Lemma primary_or_mixed_cases patterns :
  let ranked := sorted_desc confidence patterns in
  let c := primary_or_mixed patterns in
  (ranked = [] →
     c = {| verdict := NORMAL_ACTIVITY; component_patterns := None |})
  ∧ (∀ first second rest,
       ranked = first :: second :: rest → 0.5 < confidence second →
       c = {| verdict :=
                {| type := "MIXED_STRATEGY";
                   confidence :=
                     Qmin (confidence first + confidence second * 0.3) 1.0;
                   subtype := type first +:+ "_" +:+ type second;
                   evidence := evidence first ++ evidence second |};
              component_patterns := Some [first; second] |})
  ∧ (∀ first rest,
       ranked = first :: rest →
       (∀ second rest', rest = second :: rest' → confidence second <= 0.5) →
       c = {| verdict := first; component_patterns := None |}).
Proof.
  intros ranked c. subst ranked c. unfold primary_or_mixed.
  destruct (sorted_desc confidence patterns) as [|p1 [|p2 rest]].
  - repeat split; done.
  - split; [done|]. split; [done|]. by intros first rest [= <- <-] _.
  - split; [done|]. split.
    + intros first second rest' [= <- <- <-] Hlt.
      by rewrite (proj2 (Qltb_lt _ _) Hlt).
    + intros first rest' [= <- <-] Hle.
      by rewrite (proj2 (Qltb_ge _ _) (Hle _ _ eq_refl)).
Qed.

(** ** [classify_laundering_pattern] *)

Lemma classify_laundering_pattern_detectors self wallet :
  classify_laundering_pattern self wallet
  = (λ results, primary_or_mixed (filter (λ p, 0.3 < confidence p) results))
      <$> detector_results self wallet.
Proof.
  unfold classify_laundering_pattern, detector_results.
  destruct (_detect_peeling_pattern _ _ _) as [peel|]; [|done]. simpl.
  destruct (_detect_cyclic_pattern _ _) as [cyclic|]; [|done]. simpl.
  do 2 f_equal. rewrite !qualifying_filter.
  by rewrite <- !filter_app.
Qed.

Lemma detector_results_ok self wallet :
  well_formed (graph self) → wallet ∈ nodes (graph self) →
  ∃ fan peel cyclic temporal,
    detector_results self wallet = Ok [fan; peel; cyclic; temporal]
    ∧ type fan = "FAN_OUT_FAN_IN" ∧ type peel = "PEELING_CHAIN".
Proof.
  intros Hwf Hin. unfold detector_results.
  destruct (_detect_peeling_pattern_ok self wallet Hwf) as (peel & -> & Hp).
  destruct (_detect_cyclic_pattern_ok self wallet Hwf Hin) as (cyc & -> & _).
  do 4 eexists. split; [reflexivity|].
  split; [apply _detect_fan_out_fan_in_pattern_type|done].
Qed.

(** Two leading results that nothing behind them outranks stay in front. *)
Lemma sorted_desc_top_two {A} (key : A → Q) x y l :
  key y <= key x → Forall (λ z, key z <= key y) l →
  ∃ rest, sorted_desc key (x :: y :: l) = x :: y :: rest.
Proof.
  intros Hyx Hall. exists (sorted_desc key l).
  change (sorted_desc key (x :: y :: l))
    with (insert_desc key x (insert_desc key y (sorted_desc key l))).
  assert (Forall (λ z, key z <= key y) (sorted_desc key l)) as Hall'.
  { by rewrite sorted_desc_perm. }
  rewrite (insert_desc_front key y) by done.
  apply insert_desc_front. constructor; [done|].
  eapply Forall_impl; [exact Hall'|]. intros z Hz. simpl in Hz.
  by eapply Qle_trans.
Qed.

(** C6. For a wallet of the graph the classifier keeps the detector results
    whose confidence exceeds 0.3 and ranks them by descending confidence.
    With none left the verdict is NORMAL_ACTIVITY with confidence 0.0; with
    a second-ranked confidence above 0.5 it is MIXED_STRATEGY, with
    confidence min(top1 + top2 * 0.3, 1.0), the two types joined as subtype,
    both evidence lists and both component results; otherwise it is the
    top-ranked result itself. A fan-out/fan-in confidence of 0.8 and a
    peeling-chain confidence of 0.6, no other detector ranking above them,
    give MIXED_STRATEGY with confidence 0.98. *)
Theorem classify_laundering_pattern_verdict :
  ∀ (self : CryptoGraphAnalyzer) (wallet : string),
    well_formed (graph self) → wallet ∈ nodes (graph self) →
    ∃ fan peel cyclic temporal c,
      detector_results self wallet = Ok [fan; peel; cyclic; temporal]
      ∧ classify_laundering_pattern self wallet = Ok c
      ∧ let qualified :=
          filter (λ p, 0.3 < confidence p) [fan; peel; cyclic; temporal] in
        let ranked := sorted_desc confidence qualified in
        ranked ≡ₚ qualified
        ∧ Sorted (descending confidence) ranked
        ∧ (qualified = [] →
             c = {| verdict := NORMAL_ACTIVITY; component_patterns := None |}
             ∧ confidence (verdict c) = 0.0)
        ∧ (∀ first second rest,
             ranked = first :: second :: rest → 0.5 < confidence second →
             c = {| verdict :=
                      {| type := "MIXED_STRATEGY";
                         confidence :=
                           Qmin (confidence first + confidence second * 0.3)
                                1.0;
                         subtype := type first +:+ "_" +:+ type second;
                         evidence := evidence first ++ evidence second |};
                    component_patterns := Some [first; second] |})
        ∧ (∀ first rest,
             ranked = first :: rest →
             (∀ second rest', rest = second :: rest' →
                              confidence second <= 0.5) →
             c = {| verdict := first; component_patterns := None |})
        ∧ (confidence fan == 0.8 → confidence peel == 0.6 →
           confidence cyclic <= 0.6 → confidence temporal <= 0.6 →
           type (verdict c) = "MIXED_STRATEGY"
           ∧ confidence (verdict c) == 0.98
           ∧ subtype (verdict c) = "FAN_OUT_FAN_IN_PEELING_CHAIN"
           ∧ component_patterns c = Some [fan; peel]).
Proof.
  intros self wallet Hwf Hin.
  destruct (detector_results_ok self wallet Hwf Hin)
    as (fan & peel & cyclic & temporal & Hres & Htf & Htp).
  exists fan, peel, cyclic, temporal.
  rewrite classify_laundering_pattern_detectors, Hres. simpl fmap.
  eexists. split; [done|]. split; [reflexivity|].
  cbv zeta. set (qualified := filter _ _).
  pose proof (primary_or_mixed_cases qualified) as Hcases. cbv zeta in Hcases.
  set (ranked := sorted_desc confidence qualified) in *.
  destruct Hcases as (Hnone & Hmixed & Hsingle).
  split; [apply sorted_desc_perm|].
  split; [apply sorted_desc_sorted|].
  split.
  { intros Hq. rewrite Hnone; [done|]. subst ranked. by rewrite Hq. }
  split; [exact Hmixed|]. split; [exact Hsingle|].
  intros Hf Hp Hc Ht.
  assert (0.3 < confidence fan) as Hqf by (rewrite Hf; Qconst).
  assert (0.3 < confidence peel) as Hqp by (rewrite Hp; Qconst).
  destruct (sorted_desc_top_two confidence fan peel
              (filter (λ p, 0.3 < confidence p) [cyclic; temporal]))
    as [rest Hrank].
  { rewrite Hf, Hp. Qconst. }
  { apply Forall_forall. intros z [_ Hz]%list_elem_of_filter. rewrite Hp.
    apply elem_of_cons in Hz as [->|Hz]; [done|].
    by apply list_elem_of_singleton in Hz as ->. }
  assert (ranked = fan :: peel :: rest) as Hranked.
  { subst ranked qualified. rewrite <- Hrank.
    rewrite (filter_cons_True _ fan) by done.
    by rewrite (filter_cons_True _ peel) by done. }
  rewrite (Hmixed _ _ _ Hranked) by (rewrite Hp; Qconst). simpl.
  rewrite Htf, Htp. repeat split.
  rewrite Hf, Hp. reflexivity.
Qed.

Lemma classify_laundering_pattern_verdict_witness :
  ∃ c, classify_laundering_pattern mixed_example "W" = Ok c
       ∧ type (verdict c) = "MIXED_STRATEGY"
       ∧ confidence (verdict c) == 0.98.
Proof.
  destruct (classify_laundering_pattern_verdict mixed_example "W")
    as (fan & peel & cyclic & temporal & c & Hres & Hc & _ & _ & _ & _ & _ & H).
  - apply (loaded_well_formed [_]).
  - vm_compute. repeat ((by left) || right).
  - exists c. split; [exact Hc|].
    vm_compute in Hres. injection Hres as <- <- <- <-.
    destruct H as (Ht & Hconf & _); [reflexivity|reflexivity|Qconst|Qconst|].
    split; [exact Ht | exact Hconf].
Defined.

(** ** [detect_peeling_chain] on the example chain *)





(** ** [calculate_wallet_centrality] *)

(** C5, as stated, fails: in the example A lies on the cycle A -> B -> A and
    its closeness centrality is 1, but C cannot be reached, the graph as a
    whole is not strongly connected, and the analyzer reports 0. *)
Lemma closeness_component_counterexample :
  let G := graph component_example in
  has_path G "A" "B" = Ok true
  ∧ has_path G "B" "A" = Ok true
  ∧ get_or_zero (closeness_centrality G) "A" == 1
  ∧ closeness (calculate_wallet_centrality (numerics := uniform_numerics)
                 component_example "A") = 0.
Proof. by vm_compute. Qed.

Section Centrality.
Context {numerics : NxNumerics}.

Lemma calculate_wallet_centrality_closeness self wallet :
  closeness (calculate_wallet_centrality self wallet) = 0
  ∨ (is_strongly_connected (graph self) = Ok true
     ∧ closeness (calculate_wallet_centrality self wallet)
       = get_or_zero (closeness_centrality (graph self)) wallet).
Proof.
  unfold calculate_wallet_centrality.
  destruct (betweenness_centrality _); [|by left]. simpl.
  destruct (nx_pagerank _); [|by left]. simpl.
  destruct (is_strongly_connected _) as [[]|]; simpl; [|by left..].
  by right.
Qed.

Lemma get_or_zero_absent (d : list (string * Q)) wallet :
  wallet ∉ d.*1 → get_or_zero d wallet = 0.
Proof.
  intros Habs. unfold get_or_zero, dict_get.
  induction d as [|[k v] d IH]; [done|]. simpl.
  apply not_elem_of_cons in Habs as [Hne Habs]. simpl in Hne.
  rewrite bool_decide_eq_false_2 by done. by apply IH.
Qed.

Lemma degree_centrality_keys G : (degree_centrality G).*1 = nodes G.
Proof.
  unfold degree_centrality. case_bool_decide;
    rewrite <- list_fmap_compose; apply list_fmap_id.
Qed.

Lemma closeness_centrality_keys G : (closeness_centrality G).*1 = nodes G.
Proof.
  unfold closeness_centrality. rewrite <- list_fmap_compose.
  apply list_fmap_id.
Qed.

(** A wallet without edges is not a node: every dictionary lookup falls
    back on 0. *)
Lemma calculate_wallet_centrality_absent self wallet :
  wallet ∉ nodes (graph self) →
  calculate_wallet_centrality self wallet = zero_centrality.
Proof.
  intros Habs. unfold calculate_wallet_centrality.
  destruct (betweenness_centrality _) as [bd|] eqn:Eb; [|done]. simpl.
  destruct (nx_pagerank _) as [pd|] eqn:Ep; [|done]. simpl.
  destruct (is_strongly_connected _) as [sc|]; [|done]. simpl.
  rewrite !get_or_zero_absent.
  - by destruct sc.
  - by rewrite closeness_centrality_keys.
  - intros Hk. by apply (nx_pagerank_keys _ _ _ Ep) in Hk.
  - intros Hk. by apply (betweenness_centrality_keys _ _ _ Eb) in Hk.
  - by rewrite degree_centrality_keys.
Qed.

(** C5, amended. The closeness value is 0 unless the graph as a whole is
    strongly connected, in which case it is the wallet's closeness
    centrality: when betweenness, PageRank and the test for strong
    connectivity return, the result holds the wallet's entries of the four
    dictionaries, with closeness replaced by 0 if the test says no. When a
    centrality computation fails, as the test for strong connectivity does
    on the empty graph, the result is the all-zero struct, and so it is for
    a wallet without edges, which is not a node: the function always
    returns. *)
Theorem calculate_wallet_centrality_closeness_whole_graph :
  ∀ (self : CryptoGraphAnalyzer) (wallet : string),
    (is_strongly_connected (graph self) ≠ Ok true →
       closeness (calculate_wallet_centrality self wallet) = 0)
    ∧ (closeness (calculate_wallet_centrality self wallet) = 0
       ∨ closeness (calculate_wallet_centrality self wallet)
         = get_or_zero (closeness_centrality (graph self)) wallet)
    ∧ (nodes (graph self) = [] →
       calculate_wallet_centrality self wallet = zero_centrality)
    ∧ (wallet ∉ nodes (graph self) →
       calculate_wallet_centrality self wallet = zero_centrality)
    ∧ (is_raise (betweenness_centrality (graph self))
       || is_raise (nx_pagerank (graph self))
       || is_raise (is_strongly_connected (graph self)) = true →
       calculate_wallet_centrality self wallet = zero_centrality)
    ∧ (∀ betweenness_dict pagerank_dict strongly_connected,
         betweenness_centrality (graph self) = Ok betweenness_dict →
         nx_pagerank (graph self) = Ok pagerank_dict →
         is_strongly_connected (graph self) = Ok strongly_connected →
         calculate_wallet_centrality self wallet
         = {| degree := get_or_zero (degree_centrality (graph self)) wallet;
              betweenness := get_or_zero betweenness_dict wallet;
              pagerank := get_or_zero pagerank_dict wallet;
              closeness :=
                if strongly_connected
                then get_or_zero (closeness_centrality (graph self)) wallet
                else 0 |})
    ∧ (∀ betweenness_dict pagerank_dict,
         betweenness_centrality (graph self) = Ok betweenness_dict →
         nx_pagerank (graph self) = Ok pagerank_dict →
         is_strongly_connected (graph self) = Ok true →
         closeness (calculate_wallet_centrality self wallet)
         = get_or_zero (closeness_centrality (graph self)) wallet).
Proof.
  intros self wallet.
  pose proof (calculate_wallet_centrality_closeness self wallet) as Hc.
  assert (∀ betweenness_dict pagerank_dict strongly_connected,
            betweenness_centrality (graph self) = Ok betweenness_dict →
            nx_pagerank (graph self) = Ok pagerank_dict →
            is_strongly_connected (graph self) = Ok strongly_connected →
            calculate_wallet_centrality self wallet
            = {| degree :=
                   get_or_zero (degree_centrality (graph self)) wallet;
                 betweenness := get_or_zero betweenness_dict wallet;
                 pagerank := get_or_zero pagerank_dict wallet;
                 closeness :=
                   if strongly_connected
                   then get_or_zero (closeness_centrality (graph self)) wallet
                   else 0 |}) as Hvalue.
  { intros bd pd sc Hb Hp Hs. unfold calculate_wallet_centrality.
    by rewrite Hb, Hp, Hs. }
  split; [by destruct Hc as [?|[? ?]]|].
  split; [by destruct Hc as [?|[? ?]]; [left|right]|].
  cut ((nodes (graph self) = [] →
        calculate_wallet_centrality self wallet = zero_centrality)
       ∧ (wallet ∉ nodes (graph self) →
          calculate_wallet_centrality self wallet = zero_centrality)
       ∧ (is_raise (betweenness_centrality (graph self))
          || is_raise (nx_pagerank (graph self))
          || is_raise (is_strongly_connected (graph self)) = true →
          calculate_wallet_centrality self wallet = zero_centrality)).
  { intros (H1 & H2 & H3). split; [done|]. split; [done|]. split; [done|].
    split; [done|]. intros bd pd Hb Hp Hs.
    by rewrite (Hvalue bd pd true Hb Hp Hs). }
  assert (is_raise (betweenness_centrality (graph self))
          || is_raise (nx_pagerank (graph self))
          || is_raise (is_strongly_connected (graph self)) = true →
          calculate_wallet_centrality self wallet = zero_centrality) as Hr.
  { unfold calculate_wallet_centrality.
    destruct (betweenness_centrality _); [|done]. simpl.
    destruct (nx_pagerank _); [|done]. simpl.
    by destruct (is_strongly_connected _). }
  split; [|split; [apply calculate_wallet_centrality_absent|done]].
  intros Hempty. apply Hr. unfold is_strongly_connected. rewrite Hempty.
  simpl. by rewrite !orb_true_r.
Qed.

End Centrality.

Lemma calculate_wallet_centrality_closeness_whole_graph_witness :
  closeness (calculate_wallet_centrality (numerics := uniform_numerics)
               round_trip_example "A")
  = get_or_zero (closeness_centrality (graph round_trip_example)) "A"
  ∧ get_or_zero (closeness_centrality (graph round_trip_example)) "A" == 1
  ∧ closeness (calculate_wallet_centrality (numerics := uniform_numerics)
                 component_example "A") = 0.
Proof.
  split; [|split].
  - destruct (calculate_wallet_centrality_closeness_whole_graph
                (numerics := uniform_numerics) round_trip_example "A")
      as (_ & _ & _ & _ & _ & _ & Hpositive).
    apply (Hpositive _ _ eq_refl eq_refl). by vm_compute.
  - by vm_compute.
  - apply (calculate_wallet_centrality_closeness_whole_graph
             (numerics := uniform_numerics) component_example "A").
    vm_compute. discriminate.
Defined.

(** ** [detect_fan_out_fan_in] *)

(** C3, as stated, fails: with the arguments the service passes
    ([max_depth=4], [min_intermediaries=3]) the wallet W of the example,
    funded by the marked wallet X and paying five destinations, gets its
    direct record and a [multi_hop_smurfing] record for W-D1-E-F-T too. *)
Lemma direct_smurfing_bypass_counterexample :
  ∃ direct multi,
    detect_fan_out_fan_in smurfing_example "W" 4 3 = Ok [direct; multi]
    ∧ is_direct direct = true
    ∧ sp_suspicion_score direct = 0.9
    ∧ is_direct multi = false
    ∧ match multi with
      | multi_hop_smurfing source destination path _ _ _ =>
          source = "W" ∧ destination = "T"
          ∧ path = ["W"; "D1"; "E"; "F"; "T"]
      | _ => False
      end.
Proof. do 2 eexists. split; [vm_compute; reflexivity|]. done. Qed.

Lemma succs_find_edge G u v : v ∈ succs G u → is_Some (find_edge G u v).
Proof.
  unfold succs, succ_edges.
  intros (e & -> & [Hsrc He]%list_elem_of_filter)%list_elem_of_fmap.
  destruct (find_edge G u (edge_dst e)) eqn:E; [eauto|].
  apply find_edge_None in E. exfalso. apply E.
  apply list_elem_of_fmap. exists e. split; [|done].
  unfold edge_key. by rewrite Hsrc.
Qed.

Lemma linked_snoc G path u v :
  linked G (path ++ [u]) → is_Some (find_edge G u v) →
  linked G ((path ++ [u]) ++ [v]).
Proof.
  intros Hl Huv. induction path as [|a path IH]; simpl in *.
  - done.
  - destruct path as [|b path]; simpl in *.
    + split; [tauto|]. done.
    + split; [tauto|]. apply IH. tauto.
Qed.

(** The paths found by the search follow edges of the graph. *)
Lemma simple_paths_from_linked G target depth visited cur path :
  linked G (visited ++ [cur]) →
  path ∈ simple_paths_from G target depth (visited ++ [cur]) cur →
  linked G path.
Proof.
  revert visited cur.
  induction depth as [|depth IH]; intros visited cur Hl Hin; simpl in Hin.
  - by apply elem_of_nil in Hin.
  - apply list_elem_of_bind in Hin as (child & Hin & Hchild).
    pose proof (linked_snoc G visited cur child Hl (succs_find_edge _ _ _ Hchild))
      as Hl'.
    case_bool_decide; [by apply elem_of_nil in Hin|].
    case_bool_decide.
    + apply list_elem_of_singleton in Hin. by subst path.
    + by apply (IH (visited ++ [cur]) child).
Qed.

Lemma all_simple_paths_linked G source target cutoff paths path :
  all_simple_paths G source target cutoff = Ok paths →
  path ∈ paths → linked G path.
Proof.
  unfold all_simple_paths. destruct (_ || _); [done|].
  intros [= <-] Hin.
  by apply (simple_paths_from_linked G target cutoff [] source).
Qed.

Lemma analyze_pattern_loop_ok G path acc :
  linked G path → ∃ r, analyze_pattern_loop G path acc = Ok r.
Proof.
  revert acc. induction path as [|u path IH]; intros acc Hl; simpl.
  - by eexists.
  - destruct path as [|v path]; [by eexists|].
    destruct Hl as [[d Hd] Hl]. unfold get_edge. rewrite Hd. simpl.
    destruct acc as [[total count] span]. by apply IH.
Qed.

Lemma _analyze_pattern_ok self path :
  linked (graph self) path → ∃ info, _analyze_pattern self path = Ok info.
Proof.
  intros Hl. unfold _analyze_pattern.
  destruct (analyze_pattern_loop_ok (graph self) path (0, 0%nat, None) Hl)
    as [[[total count] span] ->].
  simpl. by eexists.
Qed.

Lemma multi_hop_of_path_ok self wallet target min_intermediaries path :
  linked (graph self) path →
  ∃ l, multi_hop_of_path self wallet target min_intermediaries path = Ok l
       ∧ Forall (λ p, is_direct p = false) l.
Proof.
  intros Hl. unfold multi_hop_of_path.
  case_bool_decide; [by eexists|].
  case_bool_decide; [|by eexists].
  destruct (_analyze_pattern_ok self path Hl) as [info ->]. simpl.
  destruct (Qltb _ _); eexists; (split; [reflexivity|]); by repeat constructor.
Qed.

(** A loop that collects the lists its body returns. *)
Lemma mapM_concat_ok {A B} (f : A → Res (list B)) (P : B → Prop) l :
  (∀ x, x ∈ l → ∃ k, f x = Ok k ∧ Forall P k) →
  ∃ k, @concat _ <$> mapM f l = Ok k ∧ Forall P k.
Proof.
  induction l as [|x l IH]; intros Hall.
  - exists []. by split.
  - rewrite mapM_Res_cons.
    destruct (Hall x) as (k & -> & Hk); [left|].
    destruct IH as (k' & Hk' & HP); [intros; apply Hall; by right|].
    simpl. destruct (mapM f l) as [ks|]; [|done].
    simpl in *. injection Hk' as <-.
    eexists. split; [reflexivity|]. simpl. by apply Forall_app.
Qed.

(** The general search always returns, and only multi-hop records. *)
Lemma multi_hop_smurfing_patterns_ok self wallet max_depth min_intermediaries :
  ∃ multi,
    multi_hop_smurfing_patterns self wallet max_depth min_intermediaries
    = Ok multi
    ∧ Forall (λ p, is_direct p = false) multi.
Proof.
  unfold multi_hop_smurfing_patterns. apply mapM_concat_ok.
  intros target _. case_bool_decide; [by exists []|].
  destruct (all_simple_paths _ _ _ _) as [paths|] eqn:E; [|by exists []].
  apply mapM_concat_ok. intros path Hpath.
  apply multi_hop_of_path_ok. by eapply all_simple_paths_linked.
Qed.

(** *** Without enough depth the general search finds nothing *)

Lemma simple_paths_from_length G target depth visited cur path :
  path ∈ simple_paths_from G target depth visited cur →
  (length path ≤ length visited + depth)%nat.
Proof.
  revert visited cur.
  induction depth as [|depth IH]; intros visited cur Hin; simpl in Hin.
  - by apply elem_of_nil in Hin.
  - apply list_elem_of_bind in Hin as (child & Hin & _).
    case_bool_decide; [by apply elem_of_nil in Hin|].
    case_bool_decide.
    + apply list_elem_of_singleton in Hin. subst path.
      rewrite length_app. simpl. lia.
    + apply IH in Hin. rewrite length_app in Hin. simpl in Hin. lia.
Qed.

Lemma size_list_to_set_le (l : list string) :
  (size (list_to_set l : gset string) ≤ length l)%nat.
Proof.
  induction l as [|x l IH].
  - change (list_to_set [] : gset string) with (∅ : gset string).
    by rewrite size_empty.
  - change (list_to_set (x :: l) : gset string)
      with ({[x]} ∪ list_to_set l : gset string).
    rewrite size_union_alt, size_singleton. simpl.
    assert (size ((list_to_set l : gset string) ∖ {[x]})
            ≤ size (list_to_set l : gset string))%nat.
    { apply subseteq_size. by intros y [Hy _]%elem_of_difference. }
    lia.
Qed.

(** A path of at most [max_depth] edges has fewer than [max_depth]
    intermediate nodes. *)
Lemma multi_hop_of_path_short self wallet target max_depth
    min_intermediaries path :
  (length path ≤ S max_depth)%nat → (max_depth ≤ min_intermediaries)%nat →
  multi_hop_of_path self wallet target min_intermediaries path = Ok [].
Proof.
  intros Hlen Hmin. unfold multi_hop_of_path.
  case_bool_decide; [done|].
  rewrite bool_decide_eq_false_2; [done|].
  pose proof (size_list_to_set_le (take (length path - 2) (drop 1 path))) as Hs.
  rewrite length_take, length_drop in Hs. lia.
Qed.

Lemma mapM_concat_nil {A B} (f : A → Res (list B)) l :
  (∀ x, x ∈ l → f x = Ok []) → @concat _ <$> mapM f l = Ok [].
Proof.
  induction l as [|x l IH]; intros Hall; [done|].
  rewrite mapM_Res_cons, (Hall x) by left. simpl.
  specialize (IH (λ y Hy, Hall y (list_elem_of_further _ _ _ Hy))).
  destruct (mapM f l) as [ks|]; [|done]. simpl in *.
  by injection IH as ->.
Qed.

Lemma multi_hop_smurfing_patterns_none self wallet max_depth
    min_intermediaries :
  (max_depth ≤ min_intermediaries)%nat →
  multi_hop_smurfing_patterns self wallet max_depth min_intermediaries
  = Ok [].
Proof.
  intros Hmin. unfold multi_hop_smurfing_patterns. apply mapM_concat_nil.
  intros target _. case_bool_decide; [done|].
  unfold all_simple_paths. destruct (_ || _); [done|].
  apply mapM_concat_nil. intros path Hpath.
  apply simple_paths_from_length in Hpath. simpl in Hpath.
  by apply (multi_hop_of_path_short self wallet target max_depth).
Qed.

Lemma filter_none {A} (P : A → Prop) `{∀ x, Decision (P x)} (l : list A) :
  Forall (λ x, ¬ P x) l → filter P l = [].
Proof.
  induction 1 as [|x l Hx _ IH]; [done|].
  by rewrite filter_cons_False.
Qed.

Lemma filter_all {A} (P : A → Prop) `{∀ x, Decision (P x)} (l : list A) :
  Forall P l → filter P l = l.
Proof.
  induction 1 as [|x l Hx _ IH]; [done|].
  rewrite filter_cons_True by done. by rewrite IH.
Qed.

Lemma illicit_sources_of_elem self es src :
  src ∈ illicit_sources_of self es
  ↔ src ∈ illicit_wallets self ∧ src ∈ edge_src <$> es.
Proof. unfold illicit_sources_of. by rewrite list_elem_of_filter. Qed.

(** The first stage on a wallet funded by a marked wallet and paying at
    least five destinations: one record, for all the destinations. *)
Lemma direct_smurfing_ok self wallet first rest :
  wallet ∈ nodes (graph self) →
  illicit_sources_of self (pred_edges (graph self) wallet) = first :: rest →
  (5 ≤ length (succs (graph self) wallet))%nat →
  ∃ metrics,
    direct_smurfing self wallet
    = Ok [direct_smurfing_from_illicit first wallet
            (succs (graph self) wallet)
            (first :: wallet :: succs (graph self) wallet) [wallet]
            (if bool_decide (10 < length (succs (graph self) wallet))%nat
             then 0.95 else 0.9)
            metrics]
    ∧ dm_fan_out_count metrics = length (succs (graph self) wallet).
Proof.
  intros Hin%has_node_true Hsrc Hout. unfold direct_smurfing.
  rewrite in_edges_present, out_edges_present by done.
  unfold succs in *. rewrite length_fmap in *.
  assert (0 < length (pred_edges (graph self) wallet))%nat as Hpos.
  { destruct (pred_edges (graph self) wallet); [done|]. simpl. lia. }
  rewrite !bool_decide_eq_true_2 by done. cbn [andb]. rewrite Hsrc.
  cbv iota.
  assert (∀ src, src ∈ first :: rest →
                 is_Some (find_edge (graph self) src wallet)) as Hfind.
  { intros src Hs. rewrite <- Hsrc in Hs.
    apply illicit_sources_of_elem in Hs as [_ Hs].
    apply list_elem_of_fmap in Hs as (e & -> & He).
    by apply pred_edges_find. }
  destruct (total_from_ok self wallet (first :: rest) Hfind) as [q ->].
  destruct (mapM_Res_ok
              (λ src, edge_timestamps <$> get_edge (graph self) src wallet)
              (first :: rest)) as [ts ->].
  { intros src Hs. destruct (Hfind src Hs) as [d Hd].
    unfold get_edge. rewrite Hd. by eexists. }
  simpl. eexists. split; [reflexivity|]. done.
Qed.

(** C3, amended. For a wallet of the graph with an inbound edge from a
    marked wallet and at least five destinations, the result holds exactly
    one record of type [direct_smurfing_from_illicit]: its score is 0.9, or
    0.95 above ten destinations, and it covers all the destinations. The
    general search is not bypassed: the other records of the result are the
    [multi_hop_smurfing] records it finds, and the whole is sorted by
    descending score. The search finds nothing when [max_depth] is at most
    [min_intermediaries], as with the default 3 and 3, and the direct record
    is then the only one. *)
Theorem detect_fan_out_fan_in_direct_record :
  ∀ (self : CryptoGraphAnalyzer) (wallet : string)
    (max_depth min_intermediaries : nat),
    wallet ∈ nodes (graph self) →
    (∃ src, src ∈ preds (graph self) wallet ∧ src ∈ illicit_wallets self) →
    (5 ≤ length (succs (graph self) wallet))%nat →
    ∃ patterns source metrics multi,
      detect_fan_out_fan_in self wallet max_depth min_intermediaries
      = Ok patterns
      ∧ filter (λ p, is_direct p = true) patterns
        = [direct_smurfing_from_illicit source wallet
             (succs (graph self) wallet)
             (source :: wallet :: succs (graph self) wallet) [wallet]
             (if bool_decide (10 < length (succs (graph self) wallet))%nat
              then 0.95 else 0.9)
             metrics]
      ∧ source ∈ illicit_wallets self
      ∧ source ∈ preds (graph self) wallet
      ∧ dm_fan_out_count metrics = length (succs (graph self) wallet)
      ∧ multi_hop_smurfing_patterns self wallet max_depth min_intermediaries
        = Ok multi
      ∧ filter (λ p, is_direct p = false) patterns ≡ₚ multi
      ∧ Sorted (descending sp_suspicion_score) patterns
      ∧ ((max_depth ≤ min_intermediaries)%nat →
         multi = [] ∧ length patterns = 1%nat).
Proof.
  intros self wallet max_depth min_intermediaries Hin (src & Hpred & Hill) Hout.
  destruct (illicit_sources_of self (pred_edges (graph self) wallet))
    as [|first rest] eqn:Hsrc.
  { exfalso. eapply (not_elem_of_nil src). rewrite <- Hsrc.
    by apply illicit_sources_of_elem. }
  assert (first ∈ illicit_sources_of self (pred_edges (graph self) wallet))
    as [Hf1 Hf2]%illicit_sources_of_elem by (rewrite Hsrc; left).
  destruct (direct_smurfing_ok self wallet first rest Hin Hsrc Hout)
    as (metrics & Hdirect & Hcount).
  destruct (multi_hop_smurfing_patterns_ok self wallet max_depth
              min_intermediaries) as (multi & Hmulti & Hall).
  set (direct := direct_smurfing_from_illicit _ _ _ _ _ _ _) in *.
  exists (sorted_desc sp_suspicion_score (direct :: multi)).
  exists first, metrics, multi.
  split.
  { unfold detect_fan_out_fan_in. by rewrite Hdirect, Hmulti. }
  assert (filter (λ p, is_direct p = true) multi = []) as Hnone.
  { apply filter_none. eapply Forall_impl; [exact Hall|].
    simpl. intros p Hp. by rewrite Hp. }
  assert (filter (λ p, is_direct p = false) multi = multi) as Hsame.
  { by apply filter_all. }
  split.
  { apply Permutation_singleton_r.
    rewrite (sorted_desc_perm sp_suspicion_score (direct :: multi)).
    rewrite filter_cons_True by done. by rewrite Hnone. }
  split; [done|]. split; [done|]. split; [done|]. split; [done|].
  split.
  { rewrite (sorted_desc_perm sp_suspicion_score (direct :: multi)).
    rewrite filter_cons_False by done. by rewrite Hsame. }
  split; [apply sorted_desc_sorted|].
  intros Hmin.
  rewrite multi_hop_smurfing_patterns_none in Hmulti by done.
  by injection Hmulti as <-.
Qed.

Lemma detect_fan_out_fan_in_direct_record_witness :
  ∃ patterns,
    detect_fan_out_fan_in smurfing_example "W" 4 3 = Ok patterns
    ∧ length (filter (λ p, is_direct p = true) patterns) = 1%nat.
Proof.
  destruct (detect_fan_out_fan_in_direct_record smurfing_example "W" 4 3)
    as (patterns & source & metrics & multi & Hres & Hdirect & _).
  - vm_compute. repeat ((by left) || right).
  - exists "X". split; [vm_compute; left | by vm_compute].
  - vm_compute. lia.
  - exists patterns. split; [exact Hres|]. by rewrite Hdirect.
Defined.

(** ** [detect_peeling_chain]: the traversal *)

(** C4, as stated, fails: A-B-D-E-F and A-C-D-E-F are simple paths of five
    nodes that share D; D is dequeued first at the end of A-B-D, the entry
    for A-C-D is dropped, and the path A-C-D-E-F, whose amounts peel, is
    never examined: nothing is detected. *)
Lemma per_path_visited_counterexample :
  let G := graph shared_node_example in
  linked G ["A"; "B"; "D"; "E"; "F"]
  ∧ linked G ["A"; "C"; "D"; "E"; "F"]
  ∧ _is_peeling_pattern [112; 106; 100; 94] = true
  ∧ peeling_candidates shared_node_example "A" 5
    = Some (Ok [("F", ["A"; "B"; "D"; "E"; "F"], [10; 20; 100; 94])])
  ∧ detect_peeling_chain shared_node_example "A" 5 = Some (Ok []).
Proof.
  split; [vm_compute; eauto 10|]. split; [vm_compute; eauto 10|].
  by vm_compute.
Qed.

Lemma mapM_Res_inv {A B} (f : A → Res B) l k :
  mapM f l = Ok k → Forall2 (λ x y, f x = Ok y) l k.
Proof.
  revert k. induction l as [|x l IH]; intros k.
  - intros [= <-]. constructor.
  - rewrite mapM_Res_cons. destruct (f x) as [y|] eqn:E; [|done]. simpl.
    destruct (mapM f l) as [k'|]; [|done]. simpl. intros [= <-].
    constructor; [done|]. by apply IH.
Qed.

(** What one pass of the loop pushes: one entry per neighbour outside the
    path, each extending the path by that neighbour. *)
Lemma pushed_entries G current path amounts nbrs pushed :
  mapM (λ neighbor,
          edge_data ← get_edge G current neighbor;
          mret (neighbor, path ++ [neighbor],
                amounts ++ [total_amount edge_data]))
       (filter (λ neighbor, neighbor ∉ path) nbrs) = Ok pushed →
  (length pushed ≤ length nbrs)%nat
  ∧ Forall (λ e : QueueEntry, e.1.2 = path ++ [e.1.1]) pushed.
Proof.
  intros H%mapM_Res_inv. split.
  - apply Forall2_length in H. unfold QueueEntry in *. rewrite <- H.
    apply length_filter.
  - induction H as [|n e ns es Hne _ IH]; constructor; [|done].
    destruct (get_edge G current n); [|done]. simpl in Hne.
    by injection Hne as <-.
Qed.

Lemma pushed_extended path (pushed : list QueueEntry) :
  path ≠ [] →
  Forall (λ e : QueueEntry, e.1.2 = path ++ [e.1.1]) pushed →
  Forall extended pushed.
Proof.
  intros Hne Hp. eapply Forall_impl; [exact Hp|].
  intros [[cur p] am]. simpl. intros ->.
  split; simpl.
  - rewrite length_app. simpl. destruct path; [done|]. simpl. lia.
  - apply last_snoc.
Qed.

(** Below the start entry every examined entry ends at a node that had not
    been visited, and no two examined entries end at the same node. *)
Lemma peeling_bfs_examined fuel G min_hops visited queue examined :
  Forall extended queue →
  peeling_bfs fuel G min_hops visited queue = Some (Ok examined) →
  Forall (λ e : QueueEntry,
            (e.1.1 ∉ visited) ∧ extended e ∧ (min_hops ≤ length e.1.2)%nat)
         examined
  ∧ NoDup ((λ e : QueueEntry, e.1.1) <$> examined).
Proof.
  revert visited queue examined.
  induction fuel as [|fuel IH]; intros visited queue examined Hq Hrun.
  { destruct queue as [|[[? ?] ?] ?]; [|done].
    injection Hrun as <-. split; constructor. }
  destruct queue as [|[[current path] amounts] queue'].
  { injection Hrun as <-. split; constructor. }
  apply Forall_cons in Hq as [[Hlen Hlast] Hq]. simpl in Hlen, Hlast.
  simpl in Hrun. rewrite (bool_decide_eq_true_2 _ Hlen), andb_true_r in Hrun.
  case_bool_decide as Hvis; [by apply (IH visited queue')|].
  destruct (neighbors G current) as [nbrs|]; [|done].
  destruct (mapM _ _) as [pushed|] eqn:Hpush; [|done].
  apply pushed_entries in Hpush as [_ Hpush].
  destruct (peeling_bfs fuel G min_hops _ _) as [[rest|]|] eqn:Hrest;
    [|done..].
  injection Hrun as <-.
  apply IH in Hrest as [Hall Hnd].
  2:{ apply Forall_app. split; [done|].
      apply (pushed_extended path); [|done]. by destruct path. }
  assert (Forall (λ e : QueueEntry, e.1.1 ≠ current) rest) as Hne.
  { eapply Forall_impl; [exact Hall|]. intros e [He _] Heq. apply He.
    apply elem_of_union_l, elem_of_singleton. done. }
  split.
  - apply Forall_app. split.
    + case_bool_decide; [|constructor].
      constructor; [by repeat split|constructor].
    + eapply Forall_impl; [exact Hall|]. intros e (He & ? & ?).
      split; [|done]. intros Hv. apply He. by apply elem_of_union_r.
  - rewrite fmap_app. apply NoDup_app. split; [|split; [|done]].
    + case_bool_decide; [apply NoDup_singleton|constructor].
    + intros n Hn Hn'. apply list_elem_of_fmap in Hn' as (e & -> & He).
      rewrite Forall_forall in Hne. apply (Hne e He).
      case_bool_decide; [|by apply elem_of_nil in Hn].
      by apply list_elem_of_singleton in Hn.
Qed.

(** *** Termination of the traversal *)

Lemma unvisited_edges_le G visited :
  (unvisited_edges G visited ≤ length (edges G))%nat.
Proof. apply length_filter. Qed.

Lemma unvisited_edges_mono G visited current :
  (unvisited_edges G ({[current]} ∪ visited) ≤ unvisited_edges G visited)%nat.
Proof.
  unfold unvisited_edges. induction (edges G) as [|e l IH]; [done|].
  rewrite !filter_cons.
  destruct (decide (edge_src e ∉ {[current]} ∪ visited)) as [H1|H1].
  - rewrite decide_True; [simpl; lia|].
    intros Hv. apply H1. by apply elem_of_union_r.
  - destruct (decide (edge_src e ∉ visited)); simpl; lia.
Qed.

(** Visiting a node for the first time takes the edges that leave it out
    of the count. *)
Lemma unvisited_edges_visit G visited current :
  current ∉ visited →
  (unvisited_edges G ({[current]} ∪ visited) + length (succ_edges G current)
   = unvisited_edges G visited)%nat.
Proof.
  intros Hcur. unfold unvisited_edges, succ_edges.
  induction (edges G) as [|e l IH]; [done|].
  rewrite !filter_cons.
  destruct (decide (edge_src e = current)) as [Heq|Hne].
  - rewrite decide_False, decide_True; [simpl; lia| |].
    + by rewrite Heq.
    + intros Hv. apply Hv. apply elem_of_union_l, elem_of_singleton. done.
  - destruct (decide (edge_src e ∉ visited)) as [Hv|Hv].
    + rewrite decide_True; [simpl; lia|].
      intros [Hin%elem_of_singleton|Hin]%elem_of_union; done.
    + rewrite decide_False; [simpl; lia|].
      intros Hv'. apply Hv. intros Hin. apply Hv'. by apply elem_of_union_r.
Qed.

Lemma entry_weight_pos G e : (1 ≤ entry_weight G e)%nat.
Proof. unfold entry_weight. case_bool_decide; lia. Qed.

Lemma pushed_weight G (pushed : list QueueEntry) :
  Forall extended pushed →
  sum_list (entry_weight G <$> pushed) = length pushed.
Proof.
  induction 1 as [|e l [He _] _ IH]; [done|].
  rewrite fmap_cons. simpl. rewrite IH.
  unfold entry_weight. by rewrite bool_decide_eq_true_2.
Qed.

Lemma neighbors_length G current nbrs :
  neighbors G current = Ok nbrs →
  length nbrs = length (succ_edges G current).
Proof.
  unfold neighbors, successors. destruct (has_node G current); [|done].
  intros [= <-]. apply length_fmap.
Qed.

(** Each pass through the loop lowers the measure, so fuel that covers the
    measure is enough. *)
Lemma peeling_bfs_terminates fuel G min_hops visited queue :
  Forall (λ e : QueueEntry, e.1.2 ≠ []) queue →
  (bfs_measure G visited queue ≤ fuel)%nat →
  peeling_bfs fuel G min_hops visited queue ≠ None.
Proof.
  revert visited queue.
  induction fuel as [|fuel IH]; intros visited queue Hq Hfuel.
  { destruct queue as [|e queue]; [done|].
    unfold bfs_measure in Hfuel. simpl in Hfuel.
    pose proof (entry_weight_pos G e). lia. }
  destruct queue as [|[[current path] amounts] queue']; [done|].
  apply Forall_cons in Hq as [Hpath Hq]. simpl in Hpath.
  assert (entry_weight G (current, path, amounts)
          + bfs_measure G visited queue' ≤ S fuel)%nat as Hfuel'.
  { unfold bfs_measure in *. rewrite fmap_cons in Hfuel.
    change (sum_list (?x :: ?l)) with (x + sum_list l)%nat in Hfuel. lia. }
  clear Hfuel.
  pose proof (entry_weight_pos G (current, path, amounts)) as Hpos.
  simpl.
  destruct (bool_decide (current ∈ visited) && bool_decide (1 < length path)%nat)
    eqn:Hskip.
  { apply IH; [done|]. lia. }
  destruct (neighbors G current) as [nbrs|] eqn:Hn; [|done].
  destruct (mapM _ _) as [pushed|] eqn:Hpush; [|done].
  apply pushed_entries in Hpush as [Hlen Hpush].
  apply (pushed_extended path) in Hpush; [|done].
  apply neighbors_length in Hn.
  assert (peeling_bfs fuel G min_hops ({[current]} ∪ visited)
            (queue' ++ pushed) ≠ None) as Hrec.
  { apply IH.
    - apply Forall_app. split; [done|].
      eapply Forall_impl; [exact Hpush|]. intros e [He _] Hnil.
      rewrite Hnil in He. simpl in He. lia.
    - unfold bfs_measure in *.
      rewrite fmap_app, sum_list_with_app, (pushed_weight G pushed Hpush).
      assert (entry_weight G (current, path, amounts)
              = if bool_decide (1 < length path)%nat then 1%nat
                else S (length (edges G))) as Hw by done.
      rewrite Hw in Hfuel'.
      destruct (decide (1 < length path)%nat) as [Hlong|Hshort].
      + rewrite (bool_decide_eq_true_2 _ Hlong) in Hskip, Hfuel'.
        rewrite andb_true_r in Hskip. apply bool_decide_eq_false in Hskip.
        pose proof (unvisited_edges_visit G visited current Hskip). lia.
      + rewrite (bool_decide_eq_false_2 _ Hshort) in Hfuel'.
        pose proof (unvisited_edges_mono G visited current).
        pose proof (length_filter (λ e, edge_src e = current) (edges G)).
        unfold succ_edges in Hn. lia. }
  by destruct (peeling_bfs fuel G min_hops _ _) as [[?|?]|].
Qed.

Lemma peeling_candidates_terminates self wallet min_hops :
  peeling_candidates self wallet min_hops ≠ None.
Proof.
  unfold peeling_candidates. apply peeling_bfs_terminates.
  - by repeat constructor.
  - unfold bfs_measure, peeling_fuel, entry_weight. simpl.
    pose proof (unvisited_edges_le (graph self) ∅). lia.
Qed.

(** *** What the traversal examines *)

Lemma pushed_inv G current path amounts nbrs pushed :
  mapM (λ neighbor,
          edge_data ← get_edge G current neighbor;
          mret (neighbor, path ++ [neighbor],
                amounts ++ [total_amount edge_data]))
       (filter (λ neighbor, neighbor ∉ path) nbrs) = Ok pushed →
  Forall (λ e : QueueEntry,
            ∃ neighbor data,
              neighbor ∈ nbrs ∧ (neighbor ∉ path)
              ∧ find_edge G current neighbor = Some data
              ∧ e = (neighbor, path ++ [neighbor],
                     amounts ++ [total_amount data]))
         pushed.
Proof.
  intros H%mapM_Res_inv.
  assert (Forall (λ n, n ∈ nbrs ∧ (n ∉ path))
                 (filter (λ neighbor, neighbor ∉ path) nbrs)) as Hf.
  { apply Forall_forall. intros n [? ?]%list_elem_of_filter. by split. }
  induction H as [|n e ns es Hne _ IH]; [constructor|].
  apply Forall_cons in Hf as [[Hn Hnp] Hf].
  constructor; [|by apply IH].
  unfold get_edge in Hne. destruct (find_edge G current n) as [data|] eqn:E;
    [|done].
  simpl in Hne. injection Hne as <-. by exists n, data.
Qed.

Section Peeling_invariant.
Context (G : DiGraph) (P : QueueEntry → Prop).
Hypothesis P_push :
  ∀ current path amounts neighbor data,
    P (current, path, amounts) → neighbor ∉ path →
    find_edge G current neighbor = Some data →
    P (neighbor, path ++ [neighbor], amounts ++ [total_amount data]).

(** A property of the queue entries that pushing keeps holds of every
    entry the traversal examines. *)
Lemma peeling_bfs_Forall fuel min_hops visited queue examined :
  Forall P queue →
  peeling_bfs fuel G min_hops visited queue = Some (Ok examined) →
  Forall (λ e : QueueEntry, P e ∧ (min_hops ≤ length e.1.2)%nat) examined.
Proof.
  revert visited queue examined.
  induction fuel as [|fuel IH]; intros visited queue examined Hq Hrun.
  { destruct queue as [|[[? ?] ?] ?]; [|done].
    injection Hrun as <-. constructor. }
  destruct queue as [|[[current path] amounts] queue'].
  { injection Hrun as <-. constructor. }
  apply Forall_cons in Hq as [Hcur Hq]. simpl in Hrun.
  destruct (_ && _); [by apply (IH visited queue')|].
  destruct (neighbors G current) as [nbrs|]; [|done].
  destruct (mapM _ _) as [pushed|] eqn:Hpush; [|done].
  apply pushed_inv in Hpush.
  destruct (peeling_bfs fuel G min_hops _ _) as [[rest|]|] eqn:Hrest;
    [|done..].
  injection Hrun as <-.
  apply IH in Hrest.
  2:{ apply Forall_app. split; [done|].
      eapply Forall_impl; [exact Hpush|].
      intros e (n & data & _ & Hn & Hd & ->).
      by apply (P_push current). }
  apply Forall_app. split; [|done].
  case_bool_decide; [|constructor].
  constructor; [by split|constructor].
Qed.

End Peeling_invariant.

Lemma edge_amounts_snoc G path u v data :
  find_edge G u v = Some data →
  edge_amounts G ((path ++ [u]) ++ [v])
  = edge_amounts G (path ++ [u]) ++ [total_amount data].
Proof.
  intros Hd. induction path as [|x path IH]; simpl; [by rewrite Hd|].
  destruct path as [|y path]; simpl in *; by rewrite IH.
Qed.

Lemma edge_amounts_length G path :
  length (edge_amounts G path) = (length path - 1)%nat.
Proof.
  induction path as [|u [|v path] IH]; [done..|].
  change (edge_amounts G (u :: v :: path))
    with (match find_edge G u v with
          | Some data => total_amount data
          | None => 0
          end :: edge_amounts G (v :: path)).
  simpl in *. rewrite IH. lia.
Qed.

Lemma chain_entry_push G wallet current path amounts neighbor data :
  chain_entry G wallet (current, path, amounts) → neighbor ∉ path →
  find_edge G current neighbor = Some data →
  chain_entry G wallet
    (neighbor, path ++ [neighbor], amounts ++ [total_amount data]).
Proof.
  unfold chain_entry. simpl.
  intros (Hhead & Hlast & Hnd & Hlink & ->) Hn Hd.
  destruct path as [|x path'] using rev_ind; [done|]. clear IHpath'.
  rewrite last_snoc in Hlast. injection Hlast as ->.
  split; [by destruct path'|]. split; [apply last_snoc|].
  split.
  { apply NoDup_app. split; [done|]. split; [|apply NoDup_singleton].
    intros y Hy ->%list_elem_of_singleton. done. }
  split; [by apply linked_snoc|].
  symmetry. by apply edge_amounts_snoc.
Qed.

(** *** The traversal as a tree *)

Lemma expansion_closed_insert expanded current path :
  expansion_closed expanded → expanded !! current = None →
  from_expanded expanded (current, path, []) →
  expansion_closed (<[current := path]> expanded).
Proof.
  intros Hclosed Hfresh (y & q & Hpath & Hq). simpl in Hpath.
  assert (y ≠ current) as Hy by congruence.
  intros x p Hx. destruct (decide (x = current)) as [->|Hne].
  - rewrite lookup_insert_eq in Hx. injection Hx as <-.
    split; [rewrite Hpath; apply last_snoc|].
    right. exists y, q. split; [done|]. by rewrite lookup_insert_ne.
  - rewrite lookup_insert_ne in Hx by done.
    destruct (Hclosed x p Hx) as [Hlast Hext]. split; [done|].
    destruct Hext as [?|(y' & q' & -> & Hq')]; [by left|].
    right. exists y', q'. split; [done|].
    rewrite lookup_insert_ne; [done|congruence].
Qed.

(** A prefix of the path of an expanded node is the path of the node it
    ends at. *)
Lemma expansion_closed_prefix expanded x p q r :
  expansion_closed expanded → expanded !! x = Some p →
  p = q ++ r → q ≠ [] →
  ∃ y, last q = Some y ∧ expanded !! y = Some q.
Proof.
  intros Hclosed. revert x p.
  induction r as [|z r IH] using rev_ind; intros x p Hx Hp Hq.
  - rewrite app_nil_r in Hp. subst q. exists x. split; [|done].
    by destruct (Hclosed x p Hx).
  - destruct (Hclosed x p Hx) as [Hlast [Hone|(y & q' & Hp' & Hy)]].
    + exfalso. rewrite Hp, !length_app in Hone. simpl in Hone.
      destruct q; [done|]. simpl in Hone. lia.
    + rewrite Hp, app_assoc in Hp'. apply app_inj_tail in Hp' as [Hq' _].
      by apply (IH y q').
Qed.

(** The paths of the expanded nodes form a tree: two of them that pass
    through the same node reach it the same way. *)
Lemma expansion_closed_tree expanded x1 p1 x2 p2 x q1 r1 q2 r2 :
  expansion_closed expanded →
  expanded !! x1 = Some p1 → expanded !! x2 = Some p2 →
  p1 = q1 ++ x :: r1 → p2 = q2 ++ x :: r2 → q1 = q2.
Proof.
  intros Hclosed H1 H2 Hp1 Hp2.
  destruct (expansion_closed_prefix expanded x1 p1 (q1 ++ [x]) r1)
    as (y1 & Hl1 & Hy1); [done|done|by rewrite <- app_assoc|by destruct q1|].
  destruct (expansion_closed_prefix expanded x2 p2 (q2 ++ [x]) r2)
    as (y2 & Hl2 & Hy2); [done|done|by rewrite <- app_assoc|by destruct q2|].
  rewrite last_snoc in Hl1, Hl2. injection Hl1 as <-. injection Hl2 as <-.
  rewrite Hy1 in Hy2. injection Hy2 as Heq.
  by apply app_inj_tail in Heq as [? _].
Qed.

Lemma find_edge_succs G u v : is_Some (find_edge G u v) → v ∈ succs G u.
Proof.
  intros [d Hd%find_edge_elem_of]. unfold succs, succ_edges.
  apply list_elem_of_fmap. exists (u, v, d). split; [done|].
  by apply list_elem_of_filter.
Qed.

Lemma linked_last_step G path m n :
  linked G ((path ++ [m]) ++ [n]) →
  linked G (path ++ [m]) ∧ is_Some (find_edge G m n).
Proof.
  induction path as [|a path IH]; simpl.
  - tauto.
  - destruct path as [|b path]; simpl in *; tauto.
Qed.

(** Every neighbour outside the path gets an entry. *)
Lemma pushed_complete G current path amounts nbrs pushed n :
  mapM (λ neighbor,
          edge_data ← get_edge G current neighbor;
          mret (neighbor, path ++ [neighbor],
                amounts ++ [total_amount edge_data]))
       (filter (λ neighbor, neighbor ∉ path) nbrs) = Ok pushed →
  n ∈ nbrs → n ∉ path →
  ∃ e : QueueEntry, e ∈ pushed ∧ e.1.1 = n.
Proof.
  intros H%mapM_Res_inv Hn Hpath.
  assert (n ∈ filter (λ neighbor, neighbor ∉ path) nbrs) as Hin
    by by apply list_elem_of_filter.
  clear Hn. induction H as [|m e ms es Hme _ IH];
    [by apply elem_of_nil in Hin|].
  apply elem_of_cons in Hin as [->|Hin].
  - exists e. split; [left|].
    destruct (get_edge G current m); [|done]. simpl in Hme.
    by injection Hme as <-.
  - destruct (IH Hin) as (e' & He' & Hn'). exists e'. split; [by right|done].
Qed.

Lemma neighbors_succs G current nbrs :
  neighbors G current = Ok nbrs → nbrs = succs G current.
Proof.
  unfold neighbors, successors, succs.
  destruct (has_node G current); [|done]. by intros [= <-].
Qed.

(** The nodes of the path of an expanded node are expanded. *)
Lemma expansion_closed_nodes expanded y q n :
  expansion_closed expanded → expanded !! y = Some q → n ∈ q →
  is_Some (expanded !! n).
Proof.
  intros Hclosed Hy Hn.
  apply list_elem_of_split in Hn as (q1 & r & ->).
  destruct (expansion_closed_prefix expanded y (q1 ++ n :: r) (q1 ++ [n]) r)
    as (z & Hz & Hq); [done|done|by rewrite <- app_assoc|by destruct q1|].
  rewrite last_snoc in Hz. injection Hz as <-. by rewrite Hq.
Qed.

(** Every node is expanded once, with the path of the first entry dequeued
    for it; every path examined is such a path, and every such path of at
    least [min_hops] nodes is examined. When the queue is empty, the
    successors of an expanded node are expanded. *)
Lemma peeling_bfs_tree fuel G wallet min_hops visited queue examined expanded :
  expansion_closed expanded →
  (∀ x p, expanded !! x = Some p → head p = Some wallet) →
  (∀ x, is_Some (expanded !! x) ↔ x ∈ visited) →
  Forall (from_expanded expanded) queue →
  (∀ x n, is_Some (expanded !! x) → n ∈ succs G x →
          is_Some (expanded !! n)
          ∨ ∃ e : QueueEntry, e ∈ queue ∧ e.1.1 = n) →
  peeling_bfs fuel G min_hops visited queue = Some (Ok examined) →
  ∃ expanded',
    expanded ⊆ expanded'
    ∧ expansion_closed expanded'
    ∧ Forall (λ e : QueueEntry, expanded' !! e.1.1 = Some e.1.2) examined
    ∧ (∀ x p, expanded' !! x = Some p →
         expanded !! x = Some p
         ∨ ((min_hops ≤ length p)%nat →
            ∃ e : QueueEntry, e ∈ examined ∧ e.1.1 = x ∧ e.1.2 = p))
    ∧ (∀ x n, is_Some (expanded' !! x) → n ∈ succs G x →
              is_Some (expanded' !! n))
    ∧ (∀ x p, expanded' !! x = Some p → head p = Some wallet).
Proof.
  revert visited queue examined expanded.
  induction fuel as [|fuel IH];
    intros visited queue examined expanded Hclosed Hhead Hdom Hq Hsucc Hrun.
  { destruct queue as [|[[? ?] ?] ?]; [|done].
    injection Hrun as <-. exists expanded.
    split; [done|]. split; [done|]. split; [constructor|].
    split; [by left|]. split; [|done]. intros x n Hx Hn.
    by destruct (Hsucc x n Hx Hn) as [?|(e & ?%elem_of_nil & _)]. }
  destruct queue as [|[[current path] amounts] queue'].
  { injection Hrun as <-. exists expanded.
    split; [done|]. split; [done|]. split; [constructor|].
    split; [by left|]. split; [|done]. intros x n Hx Hn.
    by destruct (Hsucc x n Hx Hn) as [?|(e & ?%elem_of_nil & _)]. }
  apply Forall_cons in Hq as [Hcur Hq].
  assert (1 < length path)%nat as Hlen.
  { destruct Hcur as (y & q & Hpath & Hy). simpl in Hpath. rewrite Hpath.
    rewrite length_app. simpl.
    destruct (Hclosed y q Hy) as [Hlast _]. destruct q; [done|]. simpl. lia. }
  simpl in Hrun.
  rewrite (bool_decide_eq_true_2 _ Hlen), andb_true_r in Hrun.
  case_bool_decide as Hvis.
  { apply (IH visited queue' examined expanded); try done.
    intros x n Hx Hn.
    destruct (Hsucc x n Hx Hn) as [?|(e & [->|He]%elem_of_cons & Hen)];
      [by left| |right; by exists e].
    left. simpl in Hen. subst n. by apply Hdom. }
  destruct (neighbors G current) as [nbrs|] eqn:Hnbrs; [|done].
  apply neighbors_succs in Hnbrs.
  destruct (mapM _ _) as [pushed|] eqn:Hpush; [|done].
  pose proof (λ n, pushed_complete _ _ _ _ _ _ n Hpush) as Hcomplete.
  apply pushed_inv in Hpush.
  destruct (peeling_bfs fuel G min_hops _ _) as [[rest|]|] eqn:Hrest;
    [|done..].
  injection Hrun as <-.
  assert (expanded !! current = None) as Hfresh.
  { destruct (expanded !! current) eqn:E; [|done].
    exfalso. apply Hvis, Hdom. by rewrite E. }
  assert (expanded ⊆ <[current := path]> expanded) as Hsub
    by by apply insert_subseteq.
  apply (IH _ _ _ (<[current := path]> expanded)) in Hrest
    as (expanded' & Hsub' & Hclosed' & Hrest & Hconv & Hsucc').
  - exists expanded'. split; [by etrans|]. split; [done|].
    assert (expanded' !! current = Some path) as Hcurrent.
    { eapply lookup_weaken; [|exact Hsub']. apply lookup_insert_eq. }
    split; [|split; [|done]].
    + apply Forall_app. split; [|done].
      case_bool_decide; [|constructor]. by constructor.
    + intros x p Hx. destruct (Hconv x p Hx) as [Hins|Hex].
      * destruct (decide (x = current)) as [->|Hne].
        -- rewrite lookup_insert_eq in Hins. injection Hins as <-.
           right. intros Hmin. exists (current, path, amounts).
           split; [|done]. apply elem_of_app. left.
           rewrite bool_decide_eq_true_2 by done. left.
        -- left. by rewrite lookup_insert_ne in Hins.
      * right. intros Hmin. destruct (Hex Hmin) as (e & He & Hxp).
        exists e. split; [|done]. apply elem_of_app. by right.
  - apply expansion_closed_insert; [done|done|].
    destruct Hcur as (y & q & Hpath & Hy). by exists y, q.
  - intros x p. destruct (decide (x = current)) as [->|Hne].
    + rewrite lookup_insert_eq. intros [= <-].
      destruct Hcur as (y & q & Hpath & Hy). simpl in Hpath.
      rewrite Hpath. specialize (Hhead y q Hy). by destruct q.
    + rewrite lookup_insert_ne by done. apply Hhead.
  - intros x. rewrite elem_of_union, elem_of_singleton, <- Hdom.
    destruct (decide (x = current)) as [->|Hne].
    + rewrite lookup_insert_eq. split; [by left|by eexists].
    + rewrite lookup_insert_ne by done. split; [by right|].
      by intros [?|?].
  - apply Forall_app. split.
    + eapply Forall_impl; [exact Hq|]. intros e (y & q & He & Hy).
      exists y, q. split; [done|]. by eapply lookup_weaken.
    + eapply Forall_impl; [exact Hpush|].
      intros e (n & data & _ & _ & _ & ->). exists current, path.
      split; [done|]. apply lookup_insert_eq.
  - intros x n Hx Hn. destruct (decide (n = current)) as [->|Hnc].
    { left. rewrite lookup_insert_eq. by eexists. }
    destruct (decide (x = current)) as [->|Hne].
    + subst nbrs. destruct (decide (n ∈ path)) as [Hpath|Hpath].
      * left. rewrite lookup_insert_ne by done.
        destruct Hcur as (y & q & Hp & Hy). simpl in Hp.
        rewrite Hp in Hpath.
        apply elem_of_app in Hpath as [Hin|Hin%list_elem_of_singleton];
          [|done].
        by apply (expansion_closed_nodes expanded y q).
      * right. destruct (Hcomplete n Hn Hpath) as (e & He & Hen).
        exists e. split; [|done]. apply elem_of_app. by right.
    + rewrite lookup_insert_ne in Hx by done.
      destruct (Hsucc x n Hx Hn) as [Hs|(e & [->|He]%elem_of_cons & Hen)].
      * left. by rewrite lookup_insert_ne.
      * done.
      * right. exists e. split; [|done]. apply elem_of_app. by left.
Qed.

(** The traversal does not depend on [min_hops], which only selects what
    is examined. *)
Lemma peeling_bfs_min_hops fuel G min_hops visited queue :
  peeling_bfs fuel G min_hops visited queue
  = fmap (M := Res)
      (filter (λ e : QueueEntry, (min_hops ≤ length e.1.2)%nat))
      <$> peeling_bfs fuel G 0 visited queue.
Proof.
  revert visited queue. induction fuel as [|fuel IH]; intros visited queue.
  { by destruct queue as [|[[? ?] ?] ?]. }
  destruct queue as [|[[current path] amounts] queue']; [done|].
  simpl. destruct (_ && _); [apply IH|].
  destruct (neighbors G current) as [nbrs|]; [|done].
  destruct (mapM _ _) as [pushed|]; [|done].
  rewrite IH.
  destruct (peeling_bfs fuel G 0 _ _) as [[rest|]|]; [|done..].
  cbv [fmap option_fmap option_map Res_fmap]. rewrite filter_cons.
  cbn [fst snd].
  by destruct (decide (min_hops ≤ length path)%nat);
    [rewrite bool_decide_eq_true_2|rewrite bool_decide_eq_false_2].
Qed.

(** C4, amended. The traversal of [detect_peeling_chain] keeps one visited
    set for all paths: it always comes to an end, and among the paths it
    examines as candidates (each of at least [min_hops] nodes) no two end at
    the same node. Every path examined is a simple path of the graph that
    starts at the wallet, with the totals of its edges as amounts. The
    paths examined form a tree: two of them that pass through the same node
    reach it by the same prefix, the path with which that node was
    expanded, so that of two paths sharing a node only the one dequeued
    first is followed beyond it; and the path up to the last node but one
    of an examined path is examined too if it has [min_hops] nodes. Every
    node that a path of the graph reaches from the wallet is expanded, with
    one path from the wallet, and that path is examined if it has
    [min_hops] nodes. The traversal is the same for every [min_hops], which only selects the paths
    that are examined. *)
Theorem detect_peeling_chain_visits_once :
  ∀ (self : CryptoGraphAnalyzer) (wallet : string) (min_hops : nat),
    peeling_candidates self wallet min_hops ≠ None
    ∧ detect_peeling_chain self wallet min_hops ≠ None
    ∧ (∀ examined,
         peeling_candidates self wallet min_hops = Some (Ok examined) →
         NoDup ((λ e : QueueEntry, e.1.1) <$> examined)
         ∧ Forall (λ e : QueueEntry,
                     last e.1.2 = Some e.1.1 ∧ (min_hops ≤ length e.1.2)%nat)
                  examined
         ∧ Forall (chain_entry (graph self) wallet) examined
         ∧ (∀ (e1 e2 : QueueEntry) x q1 r1 q2 r2,
              e1 ∈ examined → e2 ∈ examined →
              e1.1.2 = q1 ++ x :: r1 → e2.1.2 = q2 ++ x :: r2 → q1 = q2)
         ∧ (∀ (e : QueueEntry) q n,
              e ∈ examined → e.1.2 = q ++ [n] → q ≠ [] →
              (min_hops ≤ length q)%nat →
              ∃ e' : QueueEntry, e' ∈ examined ∧ e'.1.2 = q)
         ∧ (∀ path x,
              head path = Some wallet → last path = Some x →
              linked (graph self) path →
              ∃ p, head p = Some wallet ∧ last p = Some x
                   ∧ ((min_hops ≤ length p)%nat →
                      ∃ e : QueueEntry,
                        e ∈ examined ∧ e.1.1 = x ∧ e.1.2 = p)))
    ∧ peeling_candidates self wallet min_hops
      = fmap (M := Res)
          (filter (λ e : QueueEntry, (min_hops ≤ length e.1.2)%nat))
          <$> peeling_candidates self wallet 0.
Proof.
  intros self wallet min_hops.
  pose proof (peeling_candidates_terminates self wallet min_hops) as Hterm.
  split; [done|]. split.
  { unfold detect_peeling_chain.
    by destruct (peeling_candidates self wallet min_hops). }
  split; [|apply peeling_bfs_min_hops].
  intros examined Hrun.
  assert (Forall (chain_entry (graph self) wallet) examined) as Hchain.
  { apply (peeling_bfs_Forall (graph self)
             (chain_entry (graph self) wallet)) in Hrun.
    - eapply Forall_impl; [exact Hrun|]. by intros e [? _].
    - intros current path amounts neighbor data. apply chain_entry_push.
    - constructor; [|constructor]. unfold chain_entry. simpl.
      repeat split; [apply NoDup_singleton]. }
  revert Hrun. unfold peeling_candidates, peeling_fuel.
  generalize (S (2 * length (edges (graph self)))). intros fuel. simpl.
  rewrite bool_decide_eq_false_2 by apply not_elem_of_empty. simpl.
  destruct (neighbors _ wallet) as [nbrs|] eqn:Hnbrs; [|done].
  apply neighbors_succs in Hnbrs.
  destruct (mapM _ _) as [pushed|] eqn:Hpush; [|done].
  pose proof (pushed_inv (graph self) wallet [wallet] [] nbrs pushed Hpush)
    as Hinv.
  pose proof (λ n, pushed_complete (graph self) wallet [wallet] [] nbrs
                     pushed n Hpush) as Hcomplete.
  apply (pushed_entries (graph self) wallet [wallet] [] nbrs pushed) in Hpush
    as [_ Hpush].
  apply (pushed_extended [wallet]) in Hpush; [|done].
  destruct (peeling_bfs fuel _ _ _ _) as [[rest|]|] eqn:Hrest; [|done..].
  intros [= <-].
  set (start := {[wallet := [wallet]]} : gmap string (list string)).
  assert (expansion_closed start) as Hstart_closed.
  { intros x p [<- <-]%lookup_singleton_Some. split; [done|by left]. }
  assert (∀ x p, start !! x = Some p → head p = Some wallet) as Hstart_head.
  { by intros x p [<- <-]%lookup_singleton_Some. }
  assert (∀ x, is_Some (start !! x) ↔ x ∈ ({[wallet]} ∪ ∅ : gset string))
    as Hstart_dom.
  { intros x. rewrite union_empty_r_L, elem_of_singleton. split.
    - by intros [p [<- _]%lookup_singleton_Some].
    - intros ->. subst start. rewrite lookup_singleton_eq. by eexists. }
  assert (Forall (from_expanded start) pushed) as Hstart_queue.
  { eapply Forall_impl; [exact Hinv|].
    intros e (n & data & _ & _ & _ & ->). exists wallet, [wallet].
    split; [done|apply lookup_singleton_eq]. }
  assert (∀ x n, is_Some (start !! x) → n ∈ succs (graph self) x →
                 is_Some (start !! n)
                 ∨ ∃ e : QueueEntry, e ∈ pushed ∧ e.1.1 = n) as Hstart_succ.
  { intros x n [p [<- _]%lookup_singleton_Some] Hn.
    destruct (decide (n = wallet)) as [->|Hne].
    - left. subst start. rewrite lookup_singleton_eq. by eexists.
    - right. apply Hcomplete; [by subst nbrs|].
      by intros ?%list_elem_of_singleton. }
  destruct (peeling_bfs_tree _ _ wallet _ _ _ _ start Hstart_closed
              Hstart_head Hstart_dom Hstart_queue Hstart_succ Hrest)
    as (expanded & Hsub & Hclosed & Hexp & Hconv & Hsucc & Hhead).
  assert (expanded !! wallet = Some [wallet]) as Hstart.
  { eapply lookup_weaken; [|exact Hsub]. apply lookup_singleton_eq. }
  set (examined0 := if bool_decide (min_hops ≤ 1)%nat
                    then [(wallet, [wallet], [])] else []) in *.
  assert (∀ e : QueueEntry, e ∈ examined0 ++ rest →
                            expanded !! e.1.1 = Some e.1.2) as Hall_exp.
  { intros e [He|He]%elem_of_app.
    - subst examined0. case_bool_decide; [|by apply elem_of_nil in He].
      by apply list_elem_of_singleton in He as ->.
    - rewrite Forall_forall in Hexp. by apply Hexp. }
  apply peeling_bfs_examined in Hrest as [Hall Hnd]; [|done].
  split; [|split; [|split; [done|split; [|split]]]].
  - rewrite fmap_app. apply NoDup_app. split; [|split; [|done]].
    + subst examined0. case_bool_decide; [apply NoDup_singleton|constructor].
    + intros n Hn Hn'. apply list_elem_of_fmap in Hn' as (e & -> & He).
      rewrite Forall_forall in Hall. destruct (Hall e He) as [Hnot _].
      apply Hnot. apply elem_of_union_l, elem_of_singleton.
      subst examined0. case_bool_decide; [|by apply elem_of_nil in Hn].
      by apply list_elem_of_singleton in Hn.
  - apply Forall_app. split.
    + subst examined0. case_bool_decide; [|constructor].
      constructor; [by split|constructor].
    + eapply Forall_impl; [exact Hall|]. by intros e (_ & [_ ?] & ?).
  - intros e1 e2 x q1 r1 q2 r2 He1 He2 Hp1 Hp2.
    by apply (expansion_closed_tree expanded e1.1.1 e1.1.2 e2.1.1 e2.1.2
                x q1 r1 q2 r2 Hclosed (Hall_exp e1 He1) (Hall_exp e2 He2)).
  - intros e q n He Hp Hq Hmin.
    destruct (expansion_closed_prefix expanded e.1.1 e.1.2 q [n] Hclosed
                (Hall_exp e He) Hp Hq) as (y & Hy & Hyq).
    destruct (Hconv y q Hyq) as [[<- <-]%lookup_singleton_Some|Hex].
    + exists (wallet, [wallet], []). split; [|done].
      apply elem_of_app. left. subst examined0.
      rewrite bool_decide_eq_true_2 by done. left.
    + destruct (Hex Hmin) as (e' & He' & _ & Hq').
      exists e'. split; [|done]. apply elem_of_app. by right.
  - intros path x Hfirst Hlast Hlinked.
    assert (is_Some (expanded !! x)) as [p Hp].
    { revert x Hlast.
      induction path as [|n path IH] using rev_ind; intros x Hlast; [done|].
      rewrite last_snoc in Hlast. injection Hlast as ->.
      destruct path as [|m path _] using rev_ind.
      - injection Hfirst as ->. by rewrite Hstart.
      - apply linked_last_step in Hlinked as [Hlinked Hedge].
        apply (Hsucc m); [|by apply find_edge_succs].
        apply IH; [by destruct path|done|by rewrite last_snoc]. }
    exists p. split; [by apply (Hhead x)|].
    destruct (Hclosed x p Hp) as [Hlastp _]. split; [done|].
    intros Hmin. destruct (Hconv x p Hp) as [[<- <-]%lookup_singleton_Some|Hex].
    + exists (wallet, [wallet], []). split; [|done].
      apply elem_of_app. left. subst examined0.
      rewrite bool_decide_eq_true_2 by done. left.
    + destruct (Hex Hmin) as (e & He & ? & ?).
      exists e. split; [|done]. apply elem_of_app. by right.
Qed.

(** On the example of two paths through D, every node has edges out of it
    examined once: with [min_hops = 2] the traversal examines five paths,
    and both paths examined beyond D reach it through B. *)
Lemma detect_peeling_chain_visits_once_witness :
  ∃ examined,
    peeling_candidates shared_node_example "A" 2 = Some (Ok examined)
    ∧ length examined = 5%nat
    ∧ Forall (chain_entry (graph shared_node_example) "A") examined
    ∧ (∀ (e1 e2 : QueueEntry) q1 r1 q2 r2,
         e1 ∈ examined → e2 ∈ examined →
         e1.1.2 = q1 ++ "D" :: r1 → e2.1.2 = q2 ++ "D" :: r2 → q1 = q2).
Proof.
  destruct (peeling_candidates shared_node_example "A" 2)
    as [[examined|e]|] eqn:Hrun; [|by vm_compute in Hrun..].
  destruct (detect_peeling_chain_visits_once shared_node_example "A" 2)
    as (_ & _ & Hexamined & _).
  destruct (Hexamined examined Hrun) as (_ & _ & Hchain & Htree & _).
  exists examined. split; [reflexivity|].
  split; [vm_compute in Hrun; by injection Hrun as <-|].
  split; [exact Hchain|].
  intros e1 e2 q1 r1 q2 r2. apply Htree.
Defined.

(** ** Wallets that are not in the graph *)

Lemma mapM_Res_raise {A B} (f : A → Res B) l e :
  mapM f l = Raise e → ∃ x, x ∈ l ∧ f x = Raise e.
Proof.
  induction l as [|x l IH]; [done|].
  rewrite mapM_Res_cons. destruct (f x) as [y|e'] eqn:E.
  - simpl. destruct (mapM f l) as [k|e'']; [done|]. simpl.
    intros [= ->]. destruct IH as (x' & ? & ?); [done|].
    exists x'. split; [by right|done].
  - simpl. intros [= ->]. exists x. split; [left|done].
Qed.

Lemma find_chain_length_raise G budget current depth e :
  find_chain_length G budget current depth = Raise e → e = NetworkXError.
Proof.
  revert current depth. induction budget as [|budget IH];
    intros current depth; simpl; [done|].
  unfold successors. destruct (has_node G current); [|by intros [= <-]].
  simpl. destruct (edge_dst <$> _) as [|next [|]]; try done. apply IH.
Qed.

Lemma _detect_peeling_pattern_raise self wallet outs e :
  _detect_peeling_pattern self wallet outs = Raise e → e = NetworkXError.
Proof.
  unfold _detect_peeling_pattern. destruct outs as [|o outs]; [done|].
  destruct (mapM _ (o :: outs)) as [lengths|e'] eqn:E.
  - simpl. by destruct_lets.
  - simpl. intros [= ->]. apply mapM_Res_raise in E as (x & _ & Hx).
    by apply find_chain_length_raise in Hx.
Qed.

Lemma illicit_connection_score_absent self wallet :
  wallet ∉ nodes (graph self) →
  ∃ s, illicit_connection_score self wallet = Ok s.
Proof.
  intros Habs%has_node_false. unfold illicit_connection_score.
  rewrite distance_absent by done.
  destruct (bool_decide (wallet ∈ illicit_wallets self)); by eexists.
Qed.

Section Absent_wallet.
Context {numerics : NxNumerics}.

(** C1 does not hold of the code: for every wallet that is not a node of
    the graph [get_wallet_summary], [classify_laundering_pattern] and
    [detect_peeling_chain] raise networkx's [NetworkXError], from
    [predecessors], [successors] and [neighbors]. *)
Theorem absent_wallet_raises :
  ∀ (self : CryptoGraphAnalyzer) (wallet : string),
    wallet ∉ nodes (graph self) →
    get_wallet_summary self wallet = Raise NetworkXError
    ∧ classify_laundering_pattern self wallet = Raise NetworkXError
    ∧ (∀ min_hops,
         detect_peeling_chain self wallet min_hops
         = Some (Raise NetworkXError)).
Proof.
  intros self wallet Habs.
  pose proof (proj2 (has_node_false _ _) Habs) as Hnode.
  split; [|split].
  - unfold get_wallet_summary, calculate_suspicion_score.
    destruct (illicit_connection_score_absent self wallet Habs) as [s ->].
    simpl. unfold predecessors. by rewrite Hnode.
  - unfold classify_laundering_pattern.
    destruct (_detect_peeling_pattern _ _ _) as [peel|e] eqn:E.
    + simpl. unfold _detect_cyclic_pattern, successors. by rewrite Hnode.
    + apply _detect_peeling_pattern_raise in E. by subst e.
  - intros min_hops.
    unfold detect_peeling_chain, peeling_candidates, peeling_fuel.
    simpl. rewrite bool_decide_eq_false_2 by apply not_elem_of_empty.
    simpl. unfold neighbors, successors. by rewrite Hnode.
Qed.

End Absent_wallet.

Lemma absent_wallet_raises_witness :
  get_wallet_summary (numerics := uniform_numerics) peeling_example "Z"
  = Raise NetworkXError
  ∧ classify_laundering_pattern peeling_example "Z" = Raise NetworkXError
  ∧ detect_peeling_chain peeling_example "Z" 5 = Some (Raise NetworkXError).
Proof.
  destruct (absent_wallet_raises (numerics := uniform_numerics)
              peeling_example "Z") as (Hs & Hc & Hp).
  - apply (bool_decide_unpack _). by vm_compute.
  - split; [exact Hs|]. split; [exact Hc|apply Hp].
Defined.

(** A string that is not a node is read by networkx as a sequence of
    nodes, its characters: for the absent wallet "AB" the edges of the node
    A are taken, and the lookup of the edge from X to "AB" fails. *)
Example absent_wallet_key_error :
  in_edges (graph fan_out_example) "AB"
  = pred_edges (graph fan_out_example) "A"
  ∧ detect_fan_out_fan_in fan_out_example "AB" 4 3 = Raise KeyError.
Proof. by vm_compute. Qed.
